(** * EE474 Lab 4 on the ESP32: sensor pipeline and budget monitor

    A shallow embedding of the three sketches of the repository:

    - [Initial]: [Lab4_PartII/Lab4_PartII.ino] (update 1), the sensor
      pipeline with a hysteresis threshold and a [dataChanged] flag;
    - [Revised]: the second [Lab4_PartII.ino] (update 2), the pipeline
      without hysteresis, the alarm blinking after the semaphore is given
      back, and a separate [isPrime];
    - [PartI]: [Lab4_PartI.ino], three periodic tasks with a remaining-time
      counter each and a scheduler task that scans them.

    Every task is an endless loop; one pass through the loop body (a round)
    is a function from the state before to the events performed and the
    state after.  [int] is a 32-bit two's complement integer, [TickType_t]
    a 32-bit unsigned one, [float] and [double] are IEEE 754 binary32 and
    binary64 as specified by [SpecFloat]. *)

From Stdlib Require Import ZArith List Bool Lia QArith Qabs String.
From Stdlib Require Import Znumtheory Sorted DecimalString.
From Stdlib Require Import Floats.SpecFloat.
From stdpp Require Import base list.
Import ListNotations.

#[local] Open Scope Z_scope.

(** ** Machine integers *)

Module CInt.

(** [int]: the value of a mathematical result once stored in 32 bits. *)
Definition wrap32 (z : Z) : Z := (z + 2 ^ 31) mod 2 ^ 32 - 2 ^ 31.

Definition int_add (a b : Z) : Z := wrap32 (a + b).
Definition int_mul (a b : Z) : Z := wrap32 (a * b).

(** [a % b] of C++ truncates towards zero; [b = 0] has no result. *)
Definition int_rem (a b : Z) : option Z :=
  if b =? 0 then None else Some (Z.rem a b).

(** [TickType_t], [uint32_t]. *)
Definition wrapu32 (z : Z) : Z := z mod 2 ^ 32.

Definition tick_add (a b : Z) : Z := wrapu32 (a + b).
Definition tick_sub (a b : Z) : Z := wrapu32 (a - b).
Definition tick_div (a b : Z) : Z := a / b.

End CInt.

(** ** Floating point *)

Module CFloat.

(** binary32 and binary64 operations. *)
Definition float := spec_float.
Definition double := spec_float.

Definition double_of_int (z : Z) : double := binary_normalize 53 1024 z 0 false.
Definition float_of_int (z : Z) : float := binary_normalize 24 128 z 0 false.

(** Narrowing conversion of an assignment [float x = <double>]. *)
Definition float_of_double (d : double) : float :=
  match d with
  | S754_finite s m e => binary_round 24 128 s m e
  | _ => d
  end.

Definition double_div : double -> double -> double := SFdiv 53 1024.
Definition float_sub : float -> float -> float := SFsub 24 128.
Definition float_abs : float -> float := SFabs.
Definition float_gt (a b : float) : bool := SFltb b a.
Definition float_lt (a b : float) : bool := SFltb a b.

(** [(int)x]: truncation towards zero.  The conversion of a NaN, an
    infinity or a value outside [int] is undefined in C++; the averages of
    the sketches stay far inside the range. *)
Definition int_of_float (x : float) : Z :=
  match x with
  | S754_finite s m e =>
      let mag := if 0 <=? e then Zpos m * 2 ^ e else Zpos m / 2 ^ (- e) in
      CInt.wrap32 (if s then - mag else mag)
  | _ => 0
  end.

(** The rational number a finite float stands for. *)
Definition SF2Q (x : spec_float) : Q :=
  match x with
  | S754_finite s m e =>
      let mag := (inject_Z (Zpos m) * Qpower 2 e)%Q in
      if s then Qopp mag else mag
  | _ => 0%Q
  end.

Definition is_finite (x : spec_float) : bool :=
  match x with
  | S754_finite _ _ _ | S754_zero _ => true
  | _ => false
  end.

(** [a != b]: true as well when one of the two is a NaN. *)
Definition float_ne (a b : float) : bool := negb (SFeqb a b).

End CFloat.

(** ** Events of a round *)

Inductive level := LOW | HIGH.

Inductive event :=
| SemaphoreTake                      (* xSemaphoreTake(sem, portMAX_DELAY) returned pdTRUE *)
| SemaphoreGive                      (* xSemaphoreGive(sem) *)
| LcdClear
| LcdSetCursor (col row : Z)
| LcdPrintStr (s : string)
| LcdPrintInt (n : Z)
| LcdPrintLine (s : string)          (* lcdPrint(String) of part I *)
| DigitalWrite (pin : Z) (v : level)
| TaskDelayMs (ms : Z)               (* vTaskDelay(pdMS_TO_TICKS(ms)) *)
| TaskDelay (ticks : Z)              (* vTaskDelay(ticks) *)
| SerialPrint (s : string)
| SerialPrintlnInt (n : Z)
| SerialPrintlnChar (c : Z)
| TaskDelete.                        (* vTaskDelete(NULL) *)

Definition trace := list event.

(** The lock state while each event of a trace executes: the semaphore is
    held from a take up to the matching give. *)
Fixpoint annotate (held : bool) (tr : trace) : list (bool * event) :=
  match tr with
  | [] => []
  | SemaphoreTake :: tr' => (held, SemaphoreTake) :: annotate true tr'
  | SemaphoreGive :: tr' => (held, SemaphoreGive) :: annotate false tr'
  | e :: tr' => (held, e) :: annotate held tr'
  end.

(** The alarm's signalling: LED writes and the delays between them. *)
Definition is_signal (e : event) : bool :=
  match e with
  | DigitalWrite _ _ | TaskDelayMs _ | TaskDelay _ => true
  | _ => false
  end.

Definition signals_while_locked (tr : trace) : bool :=
  existsb (fun he => fst he && is_signal (snd he)) (annotate false tr).

Definition led_writes (tr : trace) : list level :=
  flat_map (fun e => match e with DigitalWrite _ v => [v] | _ => [] end) tr.

Definition serial_ints (tr : trace) : list Z :=
  flat_map (fun e => match e with SerialPrintlnInt n => [n] | _ => [] end) tr.

Definition lcd_ints (tr : trace) : list Z :=
  flat_map (fun e => match e with LcdPrintInt n => [n] | _ => [] end) tr.

(** ** Circular history buffer *)

(** [int lightHistory[5]] as a list of length 5.  A write at [index] is
    stdpp's list insert: the index stays in 0..4 (see [index_in_range]), so
    the out-of-range case, undefined in C++, does not arise. *)
Definition write_slot (hist : list Z) (index raw : Z) : list Z :=
  <[Z.to_nat index := raw]> hist.

Definition read_slot (hist : list Z) (i : Z) : Z :=
  default 0 (hist !! Z.to_nat i).

(** [for (int i = 0; i < 5; i++) sum += lightHistory[i];] *)
Fixpoint sum_loop (fuel : nat) (i : Z) (hist : list Z) (sum : Z) : Z :=
  match fuel with
  | O => sum
  | S fuel' =>
      if i <? 5 then sum_loop fuel' (i + 1) hist (CInt.int_add sum (read_slot hist i))
      else sum
  end.

(** Five passes and the failing test of the sixth. *)
Definition sum5 (hist : list Z) : Z := sum_loop 6 0 hist 0.

(** [sum / 5.0] stored in a [float]. *)
Definition sma_of_sum (sum : Z) : CFloat.float :=
  CFloat.float_of_double
    (CFloat.double_div (CFloat.double_of_int sum) (CFloat.double_of_int 5)).

(** The buffer read from its oldest slot (the next one to be overwritten)
    to its newest. *)
Definition in_write_order (hist : list Z) (index : Z) : list Z :=
  drop (Z.to_nat index) hist ++ take (Z.to_nat index) hist.

Definition last_n {A} (n : nat) (l : list A) : list A :=
  drop (length l - n) l.

Definition list_sumZ (l : list Z) : Z := fold_right Z.add 0 l.

(** The arithmetic mean: the sum over the number of elements. *)
Definition mean (l : list Z) : Q := list_sumZ l # Pos.of_nat (length l).

(** A reading of [analogRead]: the converter of the ESP32 delivers 12
    bits, which is also the scale of the thresholds 300 and 3800. *)
Definition adc_reading (raw : Z) : Prop := 0 <= raw <= 4095.

(** ** FreeRTOS primitives used by the sketches

    The kernel is not part of the repository; the three calls are modelled
    after the FreeRTOS reference manual.  A binary semaphore is a queue of
    length one: [Some true] holds a token (available), [Some false] is empty,
    [None] is the NULL handle. *)

Module FreeRTOS.

Definition SemaphoreHandle_t := option bool.

Inductive call_result :=
| Returned (pdTRUE : bool) (sem : SemaphoreHandle_t)
| Blocked                          (* the caller waits for a give *)
| AssertFailed.                    (* configASSERT on a NULL handle *)

(** "The semaphore is created in the 'empty' state, meaning the semaphore
    must first be given using the xSemaphoreGive() API function before it
    can subsequently be taken" (FreeRTOS reference manual); NULL when the
    heap is exhausted. *)
Definition xSemaphoreCreateBinary (heap_ok : bool) : SemaphoreHandle_t :=
  if heap_ok then Some false else None.

Definition xSemaphoreGive (h : SemaphoreHandle_t) : call_result :=
  match h with
  | None => AssertFailed
  | Some true => Returned false (Some true)
  | Some false => Returned true (Some true)
  end.

(** [xSemaphoreTake(h, portMAX_DELAY)]. *)
Definition xSemaphoreTake (h : SemaphoreHandle_t) : call_result :=
  match h with
  | None => AssertFailed
  | Some true => Returned true (Some false)
  | Some false => Blocked
  end.

Inductive task_entry := LightTask | LCDTask | AnomalyTask | PrimeTask.

(** The arguments of one [xTaskCreatePinnedToCore]. *)
Record Task := mkTask
  { entry : task_entry; name : string; stack : Z; priority : Z; core : Z }.

Record Boot := mkBoot
  { semaphore : SemaphoreHandle_t; created : list Task; aborted : bool }.

(** The semaphore calls of a round's trace performed on a semaphore: the
    round runs to its end or stops at a take that has to wait. *)
Fixpoint replay (h : SemaphoreHandle_t) (tr : trace) : call_result :=
  match tr with
  | [] => Returned true h
  | SemaphoreTake :: tr' =>
      match xSemaphoreTake h with
      | Returned _ h' => replay h' tr'
      | r => r
      end
  | SemaphoreGive :: tr' =>
      match xSemaphoreGive h with
      | Returned _ h' => replay h' tr'
      | r => r
      end
  | _ :: tr' => replay h tr'
  end.

End FreeRTOS.

(** How a task that runs to its end stops. *)
Inductive run (A : Type) :=
| Finished (a : A)
| Crashed (a : A)                    (* integer division by zero *)
| OutOfFuel.
Arguments Finished {A} a.
Arguments Crashed {A} a.
Arguments OutOfFuel {A}.

Definition emit_before {A} (out : list A) (r : run (list A)) : run (list A) :=
  match r with
  | Finished tr => Finished (out ++ tr)
  | Crashed tr => Crashed (out ++ tr)
  | OutOfFuel => OutOfFuel
  end.

(** [for (int i = 0; i < 3; i++) body] of the two alarm tasks, run with
    fuel for three passes and the failing test of the fourth. *)
Fixpoint blink_loop (fuel : nat) (i : Z) (body : trace) : trace :=
  match fuel with
  | O => []
  | S fuel' => if i <? 3 then body ++ blink_loop fuel' (i + 1) body else []
  end.

(** ** Lab4_PartII.ino, update 1 *)

Module Initial.
Import CInt CFloat FreeRTOS.

Definition LED_PIN : Z := 1.
Definition PHOTO_PIN : Z := 2.

Record Shared := mkShared
  { lightLevel : Z;
    lightHistory : list Z;
    sma : float;
    index : Z;
    dataChanged : bool }.

Definition init : Shared :=
  {| lightLevel := 0;
     lightHistory := [0; 0; 0; 0; 0];
     sma := float_of_int 0;
     index := 0;
     dataChanged := false |}.

(** [abs(newSMA - sma) > 5] *)
Definition exceeds_threshold (newSMA old : float) : bool :=
  float_gt (float_abs (float_sub newSMA old)) (float_of_int 5).

(** The producer's critical section; the first component is [newSMA]. *)
Definition vTaskLight_critical (raw : Z) (s : Shared) : float * Shared :=
  let hist := write_slot (lightHistory s) (index s) raw in
  let idx := Z.rem (int_add (index s) 1) 5 in
  let sum := sum5 hist in
  let newSMA := sma_of_sum sum in
  if exceeds_threshold newSMA (sma s) then
    (newSMA,
     {| lightLevel := raw; lightHistory := hist; sma := newSMA;
        index := idx; dataChanged := true |})
  else
    (newSMA,
     {| lightLevel := raw; lightHistory := hist; sma := sma s;
        index := idx; dataChanged := dataChanged s |}).

Definition vTaskLight_round (raw : Z) (s : Shared) : trace * Shared :=
  ([SemaphoreTake; SemaphoreGive], snd (vTaskLight_critical raw s)).

(** The shared state after the producer has written [samples], oldest
    first. *)
Definition producer_run (samples : list Z) (s : Shared) : Shared :=
  fold_left (fun acc raw => snd (vTaskLight_critical raw acc)) samples s.

Definition vTaskLCD_round (s : Shared) : trace * Shared :=
  if dataChanged s then
    ([SemaphoreTake;
      LcdClear; LcdSetCursor 0 0; LcdPrintStr "Light: "; LcdPrintInt (lightLevel s);
      LcdSetCursor 0 1; LcdPrintStr "SMA: "; LcdPrintInt (int_of_float (sma s));
      SemaphoreGive],
     {| lightLevel := lightLevel s; lightHistory := lightHistory s;
        sma := sma s; index := index s; dataChanged := false |})
  else ([SemaphoreTake; SemaphoreGive], s).

(** The shared states the rounds of the tasks reach from the initial one,
    in any interleaving, while [analogRead] returns 12-bit readings.  The
    alarm and prime tasks write none of the shared variables. *)
Inductive reachable : Shared -> Prop :=
| reachable_init : reachable init
| reachable_light (raw : Z) (s : Shared) :
    adc_reading raw -> reachable s -> reachable (snd (vTaskLight_round raw s))
| reachable_lcd (s : Shared) :
    reachable s -> reachable (snd (vTaskLCD_round s)).

(** [sma > 3800 || sma < 300] *)
Definition anomalous (avg : float) : bool :=
  float_gt avg (float_of_int 3800) || float_lt avg (float_of_int 300).

Definition vTaskAnomaly_round (s : Shared) : trace :=
  [SemaphoreTake]
  ++ (if anomalous (sma s) then
        blink_loop 3 0
          [DigitalWrite LED_PIN HIGH; TaskDelayMs 250;
           DigitalWrite LED_PIN LOW; TaskDelayMs 250]
        ++ [TaskDelayMs 2000]
      else [])
  ++ [SemaphoreGive].

(** The inner loop of [vTaskPrime]:
    [for (int j = 0; j * j <= num; j++) if (num % j == 0) print i].
    [num] is declared nowhere in the sketch and is a parameter here. *)
Fixpoint divisor_loop (fuel : nat) (num i j : Z) : run trace :=
  match fuel with
  | O => OutOfFuel
  | S fuel' =>
      if int_mul j j <=? num then
        match int_rem num j with
        | None => Crashed []
        | Some r =>
            emit_before
              (if r =? 0 then [SerialPrint "Prime: "; SerialPrintlnInt i] else [])
              (divisor_loop fuel' num i (int_add j 1))
        end
      else Finished []
  end.

(** [for (int i = 2; i <= 5000; i++) ...; vTaskDelete(NULL);] *)
Fixpoint prime_loop (fuel inner_fuel : nat) (num i : Z) : run trace :=
  match fuel with
  | O => OutOfFuel
  | S fuel' =>
      if i <=? 5000 then
        match divisor_loop inner_fuel num i 0 with
        | Finished out => emit_before out (prime_loop fuel' inner_fuel num (int_add i 1))
        | Crashed out => Crashed out
        | OutOfFuel => OutOfFuel
        end
      else Finished [TaskDelete]
  end.

Definition vTaskPrime (fuel : nat) (num : Z) : run trace :=
  prime_loop fuel fuel num 2.

(** [setup] from the test [xLightSemaphore != NULL] on. *)
Definition create_tasks (xLightSemaphore : SemaphoreHandle_t) : Boot :=
  match xLightSemaphore with
  | Some _ =>
      {| semaphore := xLightSemaphore;
         created :=
           [ mkTask LightTask "LightTask" 2048 1 0;
             mkTask LCDTask "LCDTask" 2048 1 0;
             mkTask AnomalyTask "AnomalyTask" 2048 1 1;
             mkTask PrimeTask "PrimeTask" 4096 1 1 ];
         aborted := false |}
  | None => {| semaphore := xLightSemaphore; created := []; aborted := false |}
  end.

Definition setup (heap_ok : bool) : Boot :=
  let xLightSemaphore := xSemaphoreCreateBinary heap_ok in
  create_tasks xLightSemaphore.

End Initial.


(** ** Lab4_PartII.ino, update 2 *)

Module Revised.
Import CInt CFloat FreeRTOS.

Definition LED_PIN : Z := 2.
Definition PHOTO_PIN : Z := 1.

Record Shared := mkShared
  { light : Z;
    average : float;
    changed : bool }.

Definition init : Shared :=
  {| light := 0; average := float_of_int 0; changed := false |}.

(** The locals of [vTaskLight] that live across rounds.  [lightHistory] is
    not initialised: the task starts from whatever five values are there. *)
Record LightLocals := mkLocals
  { lightHistory : list Z;
    index : Z }.

Definition light_locals (garbage : list Z) : LightLocals :=
  {| lightHistory := garbage; index := 0 |}.

Definition vTaskLight_round (raw : Z) (st : LightLocals * Shared)
  : trace * (LightLocals * Shared) :=
  let '(l, g) := st in
  let hist := write_slot (lightHistory l) (index l) raw in
  let idx := Z.rem (int_add (index l) 1) 5 in
  let sum := sum5 hist in
  ([SemaphoreTake; SemaphoreGive; TaskDelayMs 100],
   ({| lightHistory := hist; index := idx |},
    {| light := raw; average := sma_of_sum sum; changed := changed g |})).

Definition producer_run (samples : list Z) (st : LightLocals * Shared)
  : LightLocals * Shared :=
  fold_left (fun acc raw => snd (vTaskLight_round raw acc)) samples st.

(** [average > 3800 || average < 300] *)
Definition anomalous (avg : float) : bool :=
  float_gt avg (float_of_int 3800) || float_lt avg (float_of_int 300).

(** [anomaly] is the task's local flag, declared before the loop. *)
Definition vTaskAnomaly_round (anomaly : bool) (g : Shared) : trace * bool :=
  let anomaly1 := if anomalous (average g) then true else anomaly in
  if anomaly1 then
    ([SemaphoreTake; SemaphoreGive]
     ++ blink_loop 4 0
          [DigitalWrite LED_PIN HIGH; TaskDelayMs 250;
           DigitalWrite LED_PIN LOW; TaskDelayMs 2000]
     ++ [TaskDelayMs 50],
     false)
  else ([SemaphoreTake; SemaphoreGive; TaskDelayMs 50], anomaly1).

(** [for (int i = 2; i * i <= num; i++) if (num % i == 0) return false;] *)
Fixpoint isPrime_loop (fuel : nat) (num i : Z) : run bool :=
  match fuel with
  | O => OutOfFuel
  | S fuel' =>
      if int_mul i i <=? num then
        match int_rem num i with
        | None => Crashed false
        | Some r =>
            if r =? 0 then Finished false
            else isPrime_loop fuel' num (int_add i 1)
        end
      else Finished true
  end.

Definition isPrime (fuel : nat) (num : Z) : run bool := isPrime_loop fuel num 2.

(** [for (int i = 2; i <= 5000; i++) ...; vTaskDelete(NULL);] *)
Fixpoint prime_loop (fuel inner_fuel : nat) (i : Z) : run trace :=
  match fuel with
  | O => OutOfFuel
  | S fuel' =>
      if i <=? 5000 then
        match isPrime inner_fuel i with
        | Finished b =>
            emit_before
              ((if b then [SerialPrint "Prime: "; SerialPrintlnInt i] else [])
               ++ [TaskDelayMs 10])
              (prime_loop fuel' inner_fuel (int_add i 1))
        | Crashed _ => Crashed []
        | OutOfFuel => OutOfFuel
        end
      else Finished [TaskDelete]
  end.

Definition vTaskPrime (fuel : nat) : run trace := prime_loop fuel fuel 2.

(** [setup] from [xSemaphoreGive(xLightSemaphore)] on. *)
Definition give_and_create_tasks (xLightSemaphore : SemaphoreHandle_t) : Boot :=
  match xSemaphoreGive xLightSemaphore with
  | Returned _ (Some tok) =>
      {| semaphore := Some tok;
         created :=
           [ mkTask LightTask "LightTask" 2048 2 0;
             mkTask LCDTask "LCDTask" 2048 4 0;
             mkTask AnomalyTask "AnomalyTask" 2048 3 1;
             mkTask PrimeTask "PrimeTask" 2048 1 1 ];
         aborted := false |}
  | Returned _ None => {| semaphore := None; created := []; aborted := false |}
  | _ => {| semaphore := xLightSemaphore; created := []; aborted := true |}
  end.

Definition setup (heap_ok : bool) : Boot :=
  let xLightSemaphore := xSemaphoreCreateBinary heap_ok in
  give_and_create_tasks xLightSemaphore.

(** The locals of [vTaskLCD]: what the task rendered last. *)
Record LCDLocals := mkLCD
  { prevAverage : float;
    prevLight : Z }.

Definition lcd_locals : LCDLocals :=
  {| prevAverage := float_of_int 0; prevLight := 0 |}.

Definition vTaskLCD_round (l : LCDLocals) (g : Shared) : trace * LCDLocals :=
  if negb (light g =? prevLight l) || float_ne (average g) (prevAverage l) then
    ([SemaphoreTake;
      LcdClear; LcdSetCursor 0 0; LcdPrintStr "Light: "; LcdPrintInt (light g);
      LcdSetCursor 0 1; LcdPrintStr "SMA: "; LcdPrintInt (int_of_float (average g));
      SemaphoreGive; TaskDelayMs 250],
     {| prevAverage := average g; prevLight := light g |})
  else ([SemaphoreTake; SemaphoreGive; TaskDelayMs 250], l).

(** Successive rounds of [vTaskAnomaly], one for each shared state the task
    finds when it takes the semaphore. *)
Fixpoint alarm_run (anomaly : bool) (found : list Shared) : trace * bool :=
  match found with
  | [] => ([], anomaly)
  | g :: rest =>
      let r := vTaskAnomaly_round anomaly g in
      let r' := alarm_run (snd r) rest in
      (fst r ++ fst r', snd r')
  end.

End Revised.

(** ** Lab4_PartI.ino *)

Module PartI.
Import CInt.

Definition ledPin : Z := 2.

Definition LCD_ADDR : Z := 39.   (* 0x27 *)
Definition BL : Z := 8.          (* 0x08 *)
Definition EN : Z := 4.          (* 0x04 *)
Definition RS : Z := 1.          (* 0x01 *)

(** What goes out on the I2C bus, and the waits in between. *)
Inductive bus_event :=
| WireWrite (addr byte : Z)          (* beginTransmission, write, endTransmission *)
| DelayMs (ms : Z).

(** A value stored in a [uint8_t]. *)
Definition u8 (z : Z) : Z := z mod 256.

Definition i2cW (b : Z) : list bus_event := [WireWrite LCD_ADDR (u8 b)].

Definition wr (v : Z) (d : bool) : list bus_event :=
  let v := u8 v in
  let base := u8 (Z.lor BL (if d then RS else 0)) in
  let upper := u8 (Z.lor base (Z.land v 240)) in
  let lower := u8 (Z.lor base (Z.land (Z.shiftl v 4) 240)) in
  i2cW (Z.lor upper EN) ++ i2cW upper ++ i2cW (Z.lor lower EN) ++ i2cW lower.

(** The characters of a [String], as the [uint8_t] values [wr] is given. *)
Definition char_codes (s : string) : list Z :=
  map (fun c => Z.of_N (Ascii.N_of_ascii c)) (list_ascii_of_string s).

(** [for (int i = first; i < s.length() && i < stop; i++) wr((uint8_t)s[i], true);] *)
Fixpoint print_loop (fuel : nat) (i stop : Z) (s : list Z) : list bus_event :=
  match fuel with
  | O => []
  | S fuel' =>
      if (i <? Z.of_nat (length s)) && (i <? stop) then
        wr (nth (Z.to_nat i) s 0) true ++ print_loop fuel' (i + 1) stop s
      else []
  end.

(** Each of the two loops makes at most 16 passes. *)
Definition lcdPrint (text : string) : list bus_event :=
  let s := char_codes text in
  wr 1 false ++ [DelayMs 5] ++ wr 128 false
  ++ print_loop 17 0 16 s
  ++ (if 16 <? Z.of_nat (length s) then wr 192 false ++ print_loop 17 16 32 s
      else []).

Definition bus_bytes (tr : list bus_event) : list Z :=
  flat_map (fun e => match e with WireWrite _ b => [b] | DelayMs _ => [] end) tr.

(** The display behind the port expander, in 4-bit mode: it latches the
    upper four bits of the port on each falling edge of EN, RS with them,
    and two latched halves make one command (RS low) or character (RS
    high). *)
Record receiver := mkReceiver
  { en_was_high : bool;
    pending : option Z }.

Definition idle : receiver := {| en_was_high := false; pending := None |}.

Definition latch (st : receiver) (b : Z) : receiver * list (bool * Z) :=
  let en := Z.testbit b 2 in
  if en_was_high st && negb en then
    let half := Z.shiftr b 4 in
    match pending st with
    | None => ({| en_was_high := false; pending := Some half |}, [])
    | Some high => (idle, [(Z.testbit b 0, high * 16 + half)])
    end
  else ({| en_was_high := en; pending := pending st |}, []).

Fixpoint receive (st : receiver) (bytes : list Z) : list (bool * Z) * receiver :=
  match bytes with
  | [] => ([], st)
  | b :: rest =>
      let '(st1, out1) := latch st b in
      let '(out2, st2) := receive st1 rest in
      (out1 ++ out2, st2)
  end.

Record Globals := mkGlobals
  { remainingLedTime : Z;
    remainingCounterTime : Z;
    remainingAlphabetTime : Z;
    currentCount : Z;
    currentChar : Z }.

Section Ticks.

(** The milliseconds of one tick, a constant of the FreeRTOS port. *)
Variable portTICK_PERIOD_MS : Z.

Definition ledTaskExecutionTime : Z := tick_div 500 portTICK_PERIOD_MS.
Definition counterTaskExecutionTime : Z := tick_div 2000 portTICK_PERIOD_MS.
Definition alphabetTaskExecutionTime : Z := tick_div 13000 portTICK_PERIOD_MS.
Definition timeSlice : Z := tick_div 1000 portTICK_PERIOD_MS.

Definition init : Globals :=
  {| remainingLedTime := ledTaskExecutionTime;
     remainingCounterTime := counterTaskExecutionTime;
     remainingAlphabetTime := alphabetTaskExecutionTime;
     currentCount := 1;
     currentChar := 65 |}.

(** [if (remaining > 0) remaining = (remaining > timeSlice) ? (remaining - timeSlice) : 0;] *)
Definition countdown (remaining : Z) : Z :=
  if 0 <? remaining then
    if timeSlice <? remaining then tick_sub remaining timeSlice else 0
  else remaining.

(** [if (remaining == 0) remaining = executionTime;] *)
Definition reload (executionTime remaining : Z) : Z :=
  if remaining =? 0 then executionTime else remaining.

(** [state] is the local flag of [ledTask]. *)
Definition ledTask_round (state : bool) (g : Globals) : trace * (bool * Globals) :=
  let state := negb state in
  let r1 := countdown (remainingLedTime g) in
  let r2 := reload ledTaskExecutionTime r1 in
  ([DigitalWrite ledPin (if state then HIGH else LOW);
    TaskDelay (tick_add timeSlice 2000)],
   (state,
    {| remainingLedTime := r2;
       remainingCounterTime := remainingCounterTime g;
       remainingAlphabetTime := remainingAlphabetTime g;
       currentCount := currentCount g;
       currentChar := currentChar g |})).

(** [snprintf(buf, sizeof(buf), "Count: %d", currentCount)] *)
Definition count_text (n : Z) : string :=
  ("Count: " ++ NilZero.string_of_int (Z.to_int n))%string.

Definition counterTask_round (g : Globals) : trace * Globals :=
  let shown := currentCount g in
  let c1 := int_add (currentCount g) 1 in
  let c2 := if 20 <? c1 then 1 else c1 in
  let r1 := countdown (remainingCounterTime g) in
  let r2 := reload counterTaskExecutionTime r1 in
  ([LcdPrintLine (count_text shown);
    TaskDelay (tick_add timeSlice 800)],
   {| remainingLedTime := remainingLedTime g;
      remainingCounterTime := r2;
      remainingAlphabetTime := remainingAlphabetTime g;
      currentCount := c2;
      currentChar := currentChar g |}).

Definition alphabetTask_round (g : Globals) : trace * Globals :=
  let c1 := (currentChar g + 1) mod 256 in
  let c2 := if 90 <? c1 then 65 else c1 in
  let r1 := countdown (remainingAlphabetTime g) in
  let r2 := reload alphabetTaskExecutionTime r1 in
  ([SerialPrint "[Alphabet Task] Char: "; SerialPrintlnChar (currentChar g);
    TaskDelay (tick_add timeSlice 300)],
   {| remainingLedTime := remainingLedTime g;
      remainingCounterTime := remainingCounterTime g;
      remainingAlphabetTime := r2;
      currentCount := currentCount g;
      currentChar := c2 |}).

(** The scheduler task's round; the middle component is the local
    [minRemaining], which goes out of scope at the end of the round. *)
Definition scheduleTasks_round (g : Globals) : trace * Z * Globals :=
  let minRemaining := remainingLedTime g in
  let minRemaining :=
    if remainingCounterTime g <? minRemaining then remainingCounterTime g
    else minRemaining in
  let minRemaining :=
    if remainingAlphabetTime g <? minRemaining then remainingAlphabetTime g
    else minRemaining in
  ([TaskDelay 500], minRemaining, g).

(** The rounds of the four tasks in any interleaving. *)
Inductive task := LedTask | CounterTask | AlphabetTask | SchedulerTask.

Definition step (t : task) (st : bool * Globals) : bool * Globals :=
  match t with
  | LedTask => snd (ledTask_round (fst st) (snd st))
  | CounterTask => (fst st, snd (counterTask_round (snd st)))
  | AlphabetTask => (fst st, snd (alphabetTask_round (snd st)))
  | SchedulerTask => (fst st, snd (scheduleTasks_round (snd st)))
  end.

Definition run_schedule (sched : list task) (st : bool * Globals) : bool * Globals :=
  fold_left (fun acc t => step t acc) sched st.

(** The remaining-time counter a task owns, and its period; the scheduler
    owns none. *)
Definition remaining_of (t : task) (g : Globals) : Z :=
  match t with
  | LedTask => remainingLedTime g
  | CounterTask => remainingCounterTime g
  | AlphabetTask => remainingAlphabetTime g
  | SchedulerTask => 0
  end.

Definition period_of (t : task) : Z :=
  match t with
  | LedTask => ledTaskExecutionTime
  | CounterTask => counterTaskExecutionTime
  | AlphabetTask => alphabetTaskExecutionTime
  | SchedulerTask => 0
  end.

(** What holds of the globals between rounds. *)
Definition in_range (g : Globals) : Prop :=
  0 <= remainingLedTime g <= ledTaskExecutionTime
  /\ 0 <= remainingCounterTime g <= counterTaskExecutionTime
  /\ 0 <= remainingAlphabetTime g <= alphabetTaskExecutionTime
  /\ 1 <= currentCount g <= 20.

End Ticks.

(** The number of rounds of a task in a schedule. *)
Definition is_task (t u : task) : bool :=
  match t, u with
  | LedTask, LedTask | CounterTask, CounterTask
  | AlphabetTask, AlphabetTask | SchedulerTask, SchedulerTask => true
  | _, _ => false
  end.

Fixpoint rounds_of (t : task) (sched : list task) : Z :=
  match sched with
  | [] => 0
  | u :: rest => (if is_task t u then 1 else 0) + rounds_of t rest
  end.

End PartI.


(** ** Checking the averages the producer can compute

    Five 12-bit readings add up to at most 20475, so the averages that can
    occur are the 20476 values of [sma_of_sum]; a property of all of them is
    decided by running through the sums. *)

Definition tolerance : Q := 1 # 8192.

Definition close_to_fifth (sum : Z) : bool :=
  Qle_bool (Qabs (CFloat.SF2Q (sma_of_sum sum) - (sum # 5))) tolerance.

Definition anomaly_agrees (sum : Z) : bool :=
  Bool.eqb (Revised.anomalous (sma_of_sum sum)) ((19000 <? sum) || (sum <? 1500)).

Definition average_ok (sum : Z) : bool :=
  CFloat.is_finite (sma_of_sum sum) && close_to_fifth sum && anomaly_agrees sum.

(** The value of a float in units of [2^-26]; the averages of sensor
    readings are whole numbers of these units. *)
Definition scaled (x : CFloat.float) : Z :=
  match x with
  | S754_finite s m e =>
      let mag := Zpos m * 2 ^ (e + 26) in
      if s then - mag else mag
  | _ => 0
  end.

(** Zero, or a normal positive binary32 number below 4096 whose last
    mantissa bit is worth [2^-26] or more. *)
Definition average_shaped (x : CFloat.float) : bool :=
  match x with
  | S754_zero false => true
  | S754_finite false m e =>
      (Zpos (digits2_pos m) =? 24) && (-26 <=? e) && (e <=? -12)
  | _ => false
  end.

(** The average of a sum has this shape, is [scaled] units of [2^-26], and
    is within [2^-13] of the fifth of the sum (in units of [2^-26] and
    multiplied by five: within 40960 of [sum * 2^26]). *)
Definition representation_ok (sum : Z) : bool :=
  let x := sma_of_sum sum in
  average_shaped x
  && Qeq_bool (CFloat.SF2Q x) (scaled x # 67108864)
  && (Z.abs (5 * scaled x - sum * 2 ^ 26) <=? 40960).

Fixpoint all_from (n : nat) (lo : Z) (p : Z -> bool) : bool :=
  match n with
  | O => true
  | S k => p lo && all_from k (lo + 1) p
  end.

(** Trial division as a specification: [n] has no divisor in 2..n-1. *)
Definition no_divisor_between (n : Z) : Prop :=
  forall d, 1 < d < n -> ~ (d | n).

(** The takes and gives of a trace. *)
Definition takes (tr : trace) : nat :=
  length (List.filter (fun e => match e with SemaphoreTake => true | _ => false end) tr).

Definition gives (tr : trace) : nat :=
  length (List.filter (fun e => match e with SemaphoreGive => true | _ => false end) tr).

(** What the display shows for the average of a sum: the truncated float
    against the integer quotient. *)
Definition truncation_agrees (sum : Z) : bool :=
  CFloat.int_of_float (sma_of_sum sum) =? sum / 5.

(** All that is checked of the average of a sum, computing the average
    once. *)
Definition average_checks (sum : Z) : bool :=
  let x := sma_of_sum sum in
  CFloat.is_finite x
  && Qle_bool (Qabs (CFloat.SF2Q x - (sum # 5))) tolerance
  && Bool.eqb (Revised.anomalous x) ((19000 <? sum) || (sum <? 1500))
  && average_shaped x
  && Qeq_bool (CFloat.SF2Q x) (scaled x # 67108864)
  && (Z.abs (5 * scaled x - sum * 2 ^ 26) <=? 40960)
  && (CFloat.int_of_float x =? sum / 5).

(** The bytes of one [wr], received from idle, give back the value and the
    register select, and leave the receiver idle; every byte keeps the
    backlight bit, never has the R/W bit, and fits eight bits. *)
Definition wr_received (d : bool) (v : Z) : bool :=
  let bytes := PartI.bus_bytes (PartI.wr v d) in
  match PartI.receive PartI.idle bytes with
  | ([(rs, value)], st) =>
      Bool.eqb rs d && (value =? v)
      && negb (PartI.en_was_high st)
      && match PartI.pending st with None => true | Some _ => false end
  | _ => false
  end
  && forallb (fun b => Z.testbit b 3 && negb (Z.testbit b 1) && (b <? 256) && (0 <=? b))
       bytes
  && match map (fun b => Z.testbit b 2) bytes with
     | [true; false; true; false] => true
     | _ => false
     end.

(** Evaluate the powers of two with a closed exponent. *)
Ltac eval_pows :=
  repeat match goal with
    | |- context [Z.pow 2 ?k] =>
        let v := eval vm_compute in (Z.pow 2 k) in
        lazymatch v with
        | Zpos _ => progress change (Z.pow 2 k) with v
        end
    | H : context [Z.pow 2 ?k] |- _ =>
        let v := eval vm_compute in (Z.pow 2 k) in
        lazymatch v with
        | Zpos _ => progress change (Z.pow 2 k) with v in H
        end
    end.

(** * Properties *)

(** ** Machine integers *)

Lemma wrap32_small (z : Z) : - 2 ^ 31 <= z < 2 ^ 31 -> CInt.wrap32 z = z.
Proof.
  intros Hz. unfold CInt.wrap32.
  rewrite Z.mod_small by lia. lia.
Qed.

Lemma int_add_small (a b : Z) :
  - 2 ^ 31 <= a + b < 2 ^ 31 -> CInt.int_add a b = a + b.
Proof. intros H. unfold CInt.int_add. now apply wrap32_small. Qed.

Lemma int_mul_small (a b : Z) :
  - 2 ^ 31 <= a * b < 2 ^ 31 -> CInt.int_mul a b = a * b.
Proof. intros H. unfold CInt.int_mul. now apply wrap32_small. Qed.

(** ** The circular buffer *)

Lemma index_cases (i : Z) :
  0 <= i < 5 -> i = 0 \/ i = 1 \/ i = 2 \/ i = 3 \/ i = 4.
Proof. lia. Qed.

Lemma five_slots (hist : list Z) :
  length hist = 5%nat -> exists a b c d e, hist = [a; b; c; d; e].
Proof.
  destruct hist as [|a [|b [|c [|d [|e [|f t]]]]]]; simpl; try discriminate.
  intros _. now exists a, b, c, d, e.
Qed.

(** [index = (index + 1) % 5] keeps the cursor on a slot. *)
Lemma index_in_range (i : Z) :
  0 <= i < 5 -> 0 <= Z.rem (CInt.int_add i 1) 5 < 5.
Proof.
  intros Hi. rewrite int_add_small by lia.
  rewrite Z.rem_mod_nonneg by lia.
  apply Z.mod_pos_bound. lia.
Qed.

Lemma write_slot_length (hist : list Z) (i raw : Z) :
  length (write_slot hist i raw) = length hist.
Proof. unfold write_slot. apply length_insert. Qed.

(** A write drops the oldest sample and appends the new one. *)
Lemma write_shifts_window (hist : list Z) (i raw : Z) :
  length hist = 5%nat -> 0 <= i < 5 ->
  in_write_order (write_slot hist i raw) (Z.rem (CInt.int_add i 1) 5)
  = tl (in_write_order hist i) ++ [raw].
Proof.
  intros Hlen Hi.
  destruct (five_slots hist Hlen) as (a & b & c & d & e & ->).
  destruct (index_cases i Hi) as [-> | [-> | [-> | [-> | ->]]]]; reflexivity.
Qed.

Lemma last_n_all {A} (n : nat) (l : list A) :
  (length l <= n)%nat -> last_n n l = l.
Proof.
  intros H. unfold last_n.
  replace (length l - n)%nat with 0%nat by lia. reflexivity.
Qed.

Lemma last_n_length {A} (n : nat) (l : list A) :
  (n <= length l)%nat -> length (last_n n l) = n.
Proof. intros H. unfold last_n. rewrite length_drop. lia. Qed.

Lemma drop_succ_tl {A} (k : nat) (l : list A) :
  drop (S k) l = tl (drop k l).
Proof.
  revert l. induction k as [|k IH]; intros [|y l]; simpl; try reflexivity.
  apply IH.
Qed.

Lemma last_n_snoc {A} (n : nat) (l : list A) (x : A) :
  (S n <= length l)%nat ->
  last_n (S n) (l ++ [x]) = tl (last_n (S n) l) ++ [x].
Proof.
  intros H. unfold last_n. rewrite length_app. simpl.
  replace (length l + 1 - S n)%nat with (S (length l - S n)) by lia.
  rewrite drop_app_le by lia.
  f_equal. apply drop_succ_tl.
Qed.

Lemma last_n_app_r {A} (n : nat) (l1 l2 : list A) :
  (n <= length l2)%nat -> last_n n (l1 ++ l2) = last_n n l2.
Proof.
  intros H. unfold last_n. rewrite length_app.
  replace (length l1 + length l2 - n)%nat
    with (length l1 + (length l2 - n))%nat by lia.
  now rewrite drop_app_add.
Qed.

Lemma last_n_Forall {A} (P : A -> Prop) (n : nat) (l : list A) :
  Forall P l -> Forall P (last_n n l).
Proof. intros H. unfold last_n. now apply Forall_drop. Qed.

(** The summing loop adds the five slots, in any rotation of the buffer,
    without overflow when the slots are sensor readings. *)
Lemma sum5_window (hist : list Z) (i : Z) :
  length hist = 5%nat -> 0 <= i < 5 ->
  Forall adc_reading (in_write_order hist i) ->
  sum5 hist = list_sumZ (in_write_order hist i) /\ 0 <= sum5 hist <= 20475.
Proof.
  intros Hlen Hi Hadc.
  destruct (five_slots hist Hlen) as (a & b & c & d & e & ->).
  assert (adc_reading a /\ adc_reading b /\ adc_reading c
          /\ adc_reading d /\ adc_reading e) as (Ha & Hb & Hc & Hd & He).
  { destruct (index_cases i Hi) as [-> | [-> | [-> | [-> | ->]]]];
      cbn in Hadc; repeat (apply Forall_cons in Hadc as [? Hadc]); tauto. }
  unfold adc_reading in *.
  assert (sum5 [a; b; c; d; e] = a + b + c + d + e) as ->.
  { change (sum5 [a; b; c; d; e])
      with (CInt.int_add (CInt.int_add (CInt.int_add (CInt.int_add
              (CInt.int_add 0 a) b) c) d) e).
    rewrite (int_add_small 0 a) by lia.
    rewrite (int_add_small (0 + a) b) by lia.
    rewrite (int_add_small (0 + a + b) c) by lia.
    rewrite (int_add_small (0 + a + b + c) d) by lia.
    rewrite (int_add_small (0 + a + b + c + d) e) by lia.
    lia. }
  split; [|lia].
  destruct (index_cases i Hi) as [-> | [-> | [-> | [-> | ->]]]];
    simpl; lia.
Qed.

Lemma window_step (hist : list Z) (i raw : Z) (w : list Z) :
  (5 <= length w)%nat ->
  length hist = 5%nat -> 0 <= i < 5 ->
  in_write_order hist i = last_n 5 w ->
  in_write_order (write_slot hist i raw) (Z.rem (CInt.int_add i 1) 5)
  = last_n 5 (w ++ [raw]).
Proof.
  intros Hw Hlen Hi Hwin.
  rewrite write_shifts_window by assumption.
  rewrite last_n_snoc by assumption.
  now rewrite Hwin.
Qed.

(** ** The averages that can occur *)

Lemma all_from_spec (n : nat) (lo : Z) (p : Z -> bool) :
  all_from n lo p = true ->
  forall k, lo <= k < lo + Z.of_nat n -> p k = true.
Proof.
  revert lo. induction n as [|n IH]; intros lo Hall k Hk.
  - lia.
  - cbn [all_from] in Hall. apply andb_true_iff in Hall as [Hlo Hrest].
    destruct (Z.eq_dec k lo) as [-> | Hne]; [assumption|].
    apply (IH (lo + 1) Hrest). lia.
Qed.

Lemma all_from_weaken (n : nat) (lo : Z) (p q : Z -> bool) :
  (forall k, p k = true -> q k = true) ->
  all_from n lo p = true -> all_from n lo q = true.
Proof.
  intros Hpq. revert lo. induction n as [|n IH]; intros lo H; [reflexivity|].
  cbn [all_from] in *. apply andb_true_iff in H as [Hlo Hrest].
  apply andb_true_iff. split; [now apply Hpq | now apply IH].
Qed.

Lemma average_checks_unfold (sum : Z) :
  average_checks sum
  = CFloat.is_finite (sma_of_sum sum) && close_to_fifth sum && anomaly_agrees sum
    && average_shaped (sma_of_sum sum)
    && Qeq_bool (CFloat.SF2Q (sma_of_sum sum))
         (scaled (sma_of_sum sum) # 67108864)
    && (Z.abs (5 * scaled (sma_of_sum sum) - sum * 2 ^ 26) <=? 40960)
    && truncation_agrees sum.
Proof. reflexivity. Qed.

(** The one run through the 20476 sums. *)
Lemma all_averages_checked :
  all_from (Z.to_nat 20476) 0 average_checks = true.
Proof. vm_compute. reflexivity. Qed.

Lemma averages_checked : all_from (Z.to_nat 20476) 0 average_ok = true.
Proof.
  apply (all_from_weaken _ _ average_checks); [|exact all_averages_checked].
  intros k H. rewrite average_checks_unfold in H.
  do 4 (apply andb_true_iff in H as [H _]).
  exact H.
Qed.

Lemma average_facts (sum : Z) :
  0 <= sum <= 20475 ->
  CFloat.is_finite (sma_of_sum sum) = true
  /\ (Qabs (CFloat.SF2Q (sma_of_sum sum) - (sum # 5)) <= tolerance)%Q
  /\ Revised.anomalous (sma_of_sum sum) = ((19000 <? sum) || (sum <? 1500)).
Proof.
  intros Hs.
  pose proof (all_from_spec _ _ _ averages_checked sum) as H.
  rewrite Z2Nat.id in H by lia. specialize (H ltac:(lia)).
  unfold average_ok in H.
  apply andb_true_iff in H as [H Hagree].
  apply andb_true_iff in H as [Hfin Hclose].
  split; [assumption|]. split.
  - unfold close_to_fifth in Hclose. now apply Qle_bool_iff in Hclose.
  - unfold anomaly_agrees in Hagree. now apply eqb_prop in Hagree.
Qed.

(** The average of five sensor readings in the buffer is within
    [tolerance] of their mean. *)
Lemma sma_close_to_mean (hist : list Z) (i : Z) (w : list Z) :
  length hist = 5%nat -> 0 <= i < 5 ->
  in_write_order hist i = w -> Forall adc_reading w ->
  (Qabs (CFloat.SF2Q (sma_of_sum (sum5 hist)) - mean w) <= tolerance)%Q.
Proof.
  intros Hlen Hi Hwin Hadc. subst w.
  destruct (sum5_window hist i Hlen Hi Hadc) as [Hsum Hrange].
  destruct (average_facts _ Hrange) as (_ & Hclose & _).
  unfold mean. rewrite <- Hsum.
  assert (length (in_write_order hist i) = 5%nat) as ->.
  { unfold in_write_order. rewrite length_app, length_drop, length_take. lia. }
  exact Hclose.
Qed.

(** ** The producer of update 1 *)

Lemma initial_critical_buffer (raw : Z) (s : Initial.Shared) :
  let s' := snd (Initial.vTaskLight_critical raw s) in
  Initial.lightHistory s' = write_slot (Initial.lightHistory s) (Initial.index s) raw
  /\ Initial.index s' = Z.rem (CInt.int_add (Initial.index s) 1) 5
  /\ Initial.lightLevel s' = raw
  /\ fst (Initial.vTaskLight_critical raw s)
     = sma_of_sum (sum5 (Initial.lightHistory s')).
Proof.
  unfold Initial.vTaskLight_critical.
  destruct (Initial.exceeds_threshold _ _); cbn; auto.
Qed.

Lemma initial_producer_run_snoc (pre : list Z) (raw : Z) (s : Initial.Shared) :
  Initial.producer_run (pre ++ [raw]) s
  = snd (Initial.vTaskLight_critical raw (Initial.producer_run pre s)).
Proof.
  unfold Initial.producer_run. rewrite fold_left_app. reflexivity.
Qed.

Lemma initial_producer_window (samples : list Z) :
  let s := Initial.producer_run samples Initial.init in
  length (Initial.lightHistory s) = 5%nat
  /\ 0 <= Initial.index s < 5
  /\ in_write_order (Initial.lightHistory s) (Initial.index s)
     = last_n 5 ([0; 0; 0; 0; 0] ++ samples).
Proof.
  induction samples as [|raw pre IH] using rev_ind.
  - cbn. repeat split; lia.
  - cbn zeta in *. destruct IH as (Hlen & Hi & Hwin).
    rewrite initial_producer_run_snoc.
    destruct (initial_critical_buffer raw (Initial.producer_run pre Initial.init))
      as (-> & -> & _ & _).
    split; [now rewrite write_slot_length|].
    split; [now apply index_in_range|].
    rewrite app_assoc. apply window_step; try assumption.
    rewrite length_app. simpl. lia.
Qed.

(** ** The producer of update 2 *)

Lemma revised_producer_run_snoc (pre : list Z) (raw : Z)
  (st : Revised.LightLocals * Revised.Shared) :
  Revised.producer_run (pre ++ [raw]) st
  = snd (Revised.vTaskLight_round raw (Revised.producer_run pre st)).
Proof.
  unfold Revised.producer_run. rewrite fold_left_app. reflexivity.
Qed.

Lemma revised_producer_window (garbage samples : list Z) (g : Revised.Shared) :
  length garbage = 5%nat ->
  let st := Revised.producer_run samples (Revised.light_locals garbage, g) in
  length (Revised.lightHistory (fst st)) = 5%nat
  /\ 0 <= Revised.index (fst st) < 5
  /\ in_write_order (Revised.lightHistory (fst st)) (Revised.index (fst st))
     = last_n 5 (garbage ++ samples).
Proof.
  intros Hg.
  induction samples as [|raw pre IH] using rev_ind.
  - cbn. rewrite app_nil_r, last_n_all by lia.
    repeat split; try lia.
    unfold in_write_order. cbn. apply app_nil_r.
  - cbn zeta in *. destruct IH as (Hlen & Hi & Hwin).
    rewrite revised_producer_run_snoc.
    destruct (Revised.producer_run pre (Revised.light_locals garbage, g))
      as [l g'] eqn:E.
    cbn in *.
    split; [now rewrite write_slot_length|].
    split; [now apply index_in_range|].
    rewrite app_assoc. apply window_step; try assumption.
    rewrite length_app. lia.
Qed.

(** ** Claims on the circular buffer and the moving average *)

(** C1. After the k-th write, k >= 5, the circular buffer read in write
    order is the last five samples, whatever the samples are; and when the
    samples are 12-bit sensor readings the average the producer computes
    from the buffer is within [tolerance] (2^-13, half a binary32 unit in the
    last place below 4096) of their arithmetic mean.  Update 1 starts from
    a zeroed buffer and computes [newSMA]; update 2 starts from an
    uninitialised one and stores [average]. *)
Theorem C1_history_and_average (pre : list Z) (raw : Z) (garbage : list Z) :
  (5 <= length (pre ++ [raw]))%nat ->
  length garbage = 5%nat ->
  let samples := pre ++ [raw] in
  (let r := Initial.vTaskLight_critical raw (Initial.producer_run pre Initial.init) in
   in_write_order (Initial.lightHistory (snd r)) (Initial.index (snd r))
   = last_n 5 samples
   /\ (Forall adc_reading samples ->
       (Qabs (CFloat.SF2Q (fst r) - mean (last_n 5 samples)) <= tolerance)%Q))
  /\
  (let st := Revised.producer_run samples (Revised.light_locals garbage, Revised.init) in
   in_write_order (Revised.lightHistory (fst st)) (Revised.index (fst st))
   = last_n 5 samples
   /\ (Forall adc_reading samples ->
       (Qabs (CFloat.SF2Q (Revised.average (snd st)) - mean (last_n 5 samples))
        <= tolerance)%Q)).
Proof.
  intros Hk Hg samples.
  split.
  - pose proof (initial_producer_window (pre ++ [raw])) as Hwin.
    cbn zeta in Hwin. rewrite !initial_producer_run_snoc in Hwin.
    fold samples in Hwin. destruct Hwin as (Hlen & Hi & Hwin).
    rewrite last_n_app_r in Hwin by assumption.
    cbn zeta. split; [exact Hwin|]. intros Hadc.
    destruct (initial_critical_buffer raw (Initial.producer_run pre Initial.init))
      as (_ & _ & _ & ->).
    apply (sma_close_to_mean _ _ _ Hlen Hi Hwin).
    now apply last_n_Forall.
  - pose proof (revised_producer_window garbage samples Revised.init Hg) as Hwin.
    cbn zeta in *. destruct Hwin as (Hlen & Hi & Hwin).
    rewrite last_n_app_r in Hwin by assumption.
    split; [exact Hwin|]. intros Hadc.
    assert (Revised.average
              (snd (Revised.producer_run samples
                      (Revised.light_locals garbage, Revised.init)))
            = sma_of_sum (sum5 (Revised.lightHistory
                (fst (Revised.producer_run samples
                        (Revised.light_locals garbage, Revised.init)))))) as ->.
    { unfold samples. rewrite revised_producer_run_snoc.
      destruct (Revised.producer_run pre _) as [l g]. reflexivity. }
    apply (sma_close_to_mean _ _ _ Hlen Hi Hwin).
    now apply last_n_Forall.
Qed.

Lemma C1_witness :
  let pre := [10; 10; 10; 10; 10] in
  let raw := 50 in
  let garbage := [-7; 123456; 0; 99; -1] in
  let r := Initial.vTaskLight_critical raw (Initial.producer_run pre Initial.init) in
  let st := Revised.producer_run (pre ++ [raw])
              (Revised.light_locals garbage, Revised.init) in
  (in_write_order (Initial.lightHistory (snd r)) (Initial.index (snd r))
   = [10; 10; 10; 10; 50]
   /\ (Qabs (CFloat.SF2Q (fst r) - mean [10; 10; 10; 10; 50]%Z) <= tolerance)%Q)
  /\ (in_write_order (Revised.lightHistory (fst st)) (Revised.index (fst st))
      = [10; 10; 10; 10; 50]
      /\ (Qabs (CFloat.SF2Q (Revised.average (snd st)) - mean [10; 10; 10; 10; 50]%Z)
          <= tolerance)%Q).
Proof.
  intros pre raw garbage r st.
  assert (Forall adc_reading (pre ++ [raw])) as Hadc
    by (repeat constructor; unfold adc_reading; lia).
  destruct (C1_history_and_average pre raw garbage) as [[H1 H2] [H3 H4]].
  - simpl. lia.
  - reflexivity.
  - split; split; [exact H1 | exact (H2 Hadc) | exact H3 | exact (H4 Hadc)].
Defined.

(** Five readings of 10 followed by one of 50.  The computed average moves
    from 10.0 to 18.0; the stored one was left at 6.0 by the threshold, is
    12 away from 18.0 and is replaced, and the display then shows 50 and
    18. *)
Example readings_10_then_50 :
  let s := Initial.producer_run [10; 10; 10; 10] Initial.init in
  let r5 := Initial.vTaskLight_critical 10 s in
  let r6 := Initial.vTaskLight_critical 50 (snd r5) in
  fst r5 = CFloat.float_of_int 10
  /\ Initial.sma (snd r5) = CFloat.float_of_int 6
  /\ fst r6 = CFloat.float_of_int 18
  /\ Initial.sma (snd r6) = CFloat.float_of_int 18
  /\ Initial.dataChanged (snd r6) = true
  /\ lcd_ints (fst (Initial.vTaskLCD_round (snd r6))) = [50; 18].
Proof. vm_compute. repeat split; reflexivity. Qed.

Lemma sma_close_to_buffer_mean (hist : list Z) :
  length hist = 5%nat -> Forall adc_reading hist ->
  (Qabs (CFloat.SF2Q (sma_of_sum (sum5 hist)) - mean hist) <= tolerance)%Q.
Proof.
  intros Hlen Hadc.
  apply (sma_close_to_mean hist 0); try assumption; try lia.
  unfold in_write_order. cbn. apply app_nil_r.
Qed.

(** A float is never more than the threshold away from itself, also when it
    is an infinity or a NaN: the comparison with a NaN is false. *)
Lemma threshold_not_exceeded_by_self (x : CFloat.float) :
  Initial.exceeds_threshold x x = false.
Proof.
  unfold Initial.exceeds_threshold, CFloat.float_sub.
  destruct x as [[|] | [|] | | s m e]; try reflexivity.
  unfold SFsub. rewrite Z.sub_diag. reflexivity.
Qed.

Lemma exceeds_threshold_unfold (a b : CFloat.float) :
  Initial.exceeds_threshold a b
  = CFloat.float_gt (CFloat.float_abs (CFloat.float_sub a b)) (CFloat.float_of_int 5).
Proof. reflexivity. Qed.

Lemma initial_critical_unfold (raw : Z) (s : Initial.Shared) :
  Initial.vTaskLight_critical raw s
  = let hist := write_slot (Initial.lightHistory s) (Initial.index s) raw in
    let idx := Z.rem (CInt.int_add (Initial.index s) 1) 5 in
    let newSMA := sma_of_sum (sum5 hist) in
    let exceeded := Initial.exceeds_threshold newSMA (Initial.sma s) in
    (newSMA,
     {| Initial.lightLevel := raw;
        Initial.lightHistory := hist;
        Initial.sma := if exceeded then newSMA else Initial.sma s;
        Initial.index := idx;
        Initial.dataChanged := if exceeded then true else Initial.dataChanged s |}).
Proof.
  unfold Initial.vTaskLight_critical. cbv zeta.
  destruct (Initial.exceeds_threshold _ _); reflexivity.
Qed.

Lemma initial_round_unfold (raw : Z) (s : Initial.Shared) :
  Initial.vTaskLight_round raw s
  = ([SemaphoreTake; SemaphoreGive], snd (Initial.vTaskLight_critical raw s)).
Proof. reflexivity. Qed.

(** ** Rounding the difference of two averages

    [abs(newSMA - sma) > 5] subtracts two binary32 numbers, which rounds
    the exact difference to the nearest binary32 number, ties to even, and
    compares the result with 5.  The lemmas below follow [SFsub] through
    [binary_normalize] and [binary_round]. *)

Lemma digits2_size (p : positive) : digits2_pos p = Pos.size p.
Proof. induction p as [p IH | p IH |]; cbn; congruence. Qed.

Lemma digits2_bounds (p : positive) :
  2 ^ (Zpos (digits2_pos p) - 1) <= Zpos p < 2 ^ Zpos (digits2_pos p).
Proof.
  rewrite digits2_size.
  pose proof (Pos.size_gt p) as Hgt. pose proof (Pos.size_le p) as Hle.
  apply Pos2Z.pos_lt_pos in Hgt. apply Pos2Z.pos_le_pos in Hle.
  rewrite Pos2Z.inj_pow in Hgt, Hle.
  split; [|exact Hgt].
  replace (Zpos (Pos.size p)) with (Z.succ (Zpos (Pos.size p) - 1)) in Hle by lia.
  rewrite Z.pow_succ_r in Hle by lia. lia.
Qed.

Lemma digits2_unique (p : positive) (k : Z) :
  2 ^ (k - 1) <= Zpos p < 2 ^ k -> Zpos (digits2_pos p) = k.
Proof.
  intros [Hlo Hhi]. pose proof (digits2_bounds p) as [Dlo Dhi].
  set (d := Zpos (digits2_pos p)) in *.
  assert (0 < k) as Hk.
  { destruct (Z.ltb_spec 0 k) as [H|H]; [exact H|].
    destruct (Z.eq_dec k 0) as [->|Hne]; [cbn in Hhi; lia|].
    rewrite Z.pow_neg_r in Hhi by lia. lia. }
  assert (d - 1 < k) by (apply (Z.pow_lt_mono_r_iff 2); lia).
  assert (k - 1 < d) by (apply (Z.pow_lt_mono_r_iff 2); lia).
  lia.
Qed.

Lemma iter_xO (p d : positive) :
  Zpos (Pos.iter xO p d) = Zpos p * 2 ^ Zpos d.
Proof.
  induction d as [|d IH] using Pos.peano_ind.
  - cbn. lia.
  - rewrite Pos.iter_succ, Pos2Z.inj_succ, Z.pow_succ_r by lia.
    rewrite Pos2Z.inj_xO, IH. lia.
Qed.

Lemma iter_pos_iter {A} (f : A -> A) (n : positive) (x : A) :
  SpecFloat.iter_pos f n x = Pos.iter f x n.
Proof.
  revert x. induction n as [n IH | n IH |]; intros x; cbn.
  - rewrite !IH. now rewrite <- Pos.iter_swap, <- Pos.iter_swap.
  - now rewrite !IH.
  - reflexivity.
Qed.

Lemma shr_1_nonneg (m : Z) (r s : bool) :
  0 <= m ->
  shr_1 {| shr_m := m; shr_r := r; shr_s := s |}
  = {| shr_m := m / 2; shr_r := Z.odd m; shr_s := r || s |}.
Proof.
  intros Hm. rewrite <- Z.div2_div.
  destruct m as [|[p|p|]|]; try reflexivity. lia.
Qed.

Lemma sticky_step (m k : Z) :
  0 <= m -> 0 <= k ->
  Z.odd (m / 2 ^ k) || negb (m mod 2 ^ k =? 0)
  = negb (m mod 2 ^ (k + 1) =? 0).
Proof.
  intros Hm Hk.
  assert (0 < 2 ^ k) as Hp by (apply Z.pow_pos_nonneg; lia).
  rewrite Z.pow_add_r, Z.pow_1_r by lia.
  rewrite Z.rem_mul_r by lia.
  pose proof (Z.mod_pos_bound m (2 ^ k) Hp) as Hb.
  rewrite Zodd_mod.
  pose proof (Z.mod_pos_bound (m / 2 ^ k) 2 ltac:(lia)) as Hc.
  destruct (Z.eqb_spec ((m / 2 ^ k) mod 2) 1) as [E|E];
    destruct (Z.eqb_spec (m mod 2 ^ k) 0) as [F|F];
    destruct (Z.eqb_spec (m mod 2 ^ k + 2 ^ k * ((m / 2 ^ k) mod 2)) 0) as [G|G];
    try reflexivity; cbn; nia.
Qed.

Lemma shr_iter (m : Z) (n : positive) :
  0 <= m ->
  SpecFloat.iter_pos shr_1 n {| shr_m := m; shr_r := false; shr_s := false |}
  = {| shr_m := m / 2 ^ Zpos n;
       shr_r := Z.odd (m / 2 ^ (Zpos n - 1));
       shr_s := negb (m mod 2 ^ (Zpos n - 1) =? 0) |}.
Proof.
  intros Hm. rewrite iter_pos_iter.
  induction n as [|n IH] using Pos.peano_ind.
  - cbn [Pos.iter]. rewrite shr_1_nonneg by exact Hm.
    change (2 ^ (1 - 1)) with 1. rewrite Z.div_1_r, Z.mod_1_r. reflexivity.
  - rewrite Pos.iter_succ, IH.
    assert (0 < 2 ^ Zpos n) as Hp by (apply Z.pow_pos_nonneg; lia).
    rewrite shr_1_nonneg by (apply Z.div_pos; lia).
    rewrite Pos2Z.inj_succ.
    replace (Z.succ (Zpos n) - 1) with (Zpos n) by lia.
    rewrite Z.div_div by lia.
    rewrite (Z.mul_comm (2 ^ Zpos n) 2), <- (Z.pow_succ_r 2 (Zpos n)) by lia.
    f_equal.
    rewrite sticky_step by lia.
    now replace (Zpos n - 1 + 1) with (Zpos n) by lia.
Qed.

Lemma fexp_normal (k : Z) : -125 <= k -> fexp 24 128 k = k - 24.
Proof. intros Hk. unfold fexp, emin. lia. Qed.

Lemma shl_align_left (mx : positive) (ex ex' : Z) :
  ex' < ex ->
  exists mz, shl_align mx ex ex' = (mz, ex')
             /\ Zpos mz = Zpos mx * 2 ^ (ex - ex').
Proof.
  intros H. unfold shl_align.
  destruct (ex' - ex) as [|d|d] eqn:E; try lia.
  exists (Pos.iter xO mx d). split; [reflexivity|].
  rewrite iter_xO. f_equal. f_equal. lia.
Qed.

Lemma shl_align_none (mx : positive) (ex ex' : Z) :
  ex <= ex' -> shl_align mx ex ex' = (mx, ex).
Proof.
  intros H. unfold shl_align.
  destruct (ex' - ex) as [|d|d] eqn:E; try lia; reflexivity.
Qed.

Lemma shr_fexp_none (m : positive) (e : Z) :
  Zpos (digits2_pos m) = 24 -> -149 <= e ->
  shr_fexp 24 128 (Zpos m) e loc_Exact
  = ({| shr_m := Zpos m; shr_r := false; shr_s := false |}, e).
Proof.
  intros Hd He. unfold shr_fexp. cbn [Zdigits2]. rewrite Hd.
  rewrite fexp_normal by lia.
  replace (24 + e - 24 - e) with 0 by lia. reflexivity.
Qed.

Lemma binary_round_aux_exact (s : bool) (m : positive) (e : Z) :
  Zpos (digits2_pos m) = 24 -> -149 <= e <= 104 ->
  binary_round_aux 24 128 s (Zpos m) e loc_Exact = S754_finite s m e.
Proof.
  intros Hd He. unfold binary_round_aux.
  rewrite shr_fexp_none by (assumption || lia).
  cbn [shr_m loc_of_shr_record round_nearest_even].
  rewrite shr_fexp_none by (assumption || lia).
  cbn [shr_m].
  destruct (Z.leb_spec e (128 - 24)); [reflexivity | lia].
Qed.

(** A mantissa of at most 24 bits is kept, shifted to 24 bits. *)
Lemma binary_round_short (s : bool) (p : positive) (ez : Z) :
  Zpos (digits2_pos p) <= 24 ->
  -125 <= Zpos (digits2_pos p) + ez <= 128 ->
  exists m,
    binary_round 24 128 s p ez
    = S754_finite s m (Zpos (digits2_pos p) + ez - 24)
    /\ Zpos m = Zpos p * 2 ^ (24 - Zpos (digits2_pos p))
    /\ Zpos (digits2_pos m) = 24.
Proof.
  intros Hd Hr. pose proof (digits2_bounds p) as Hb.
  set (d := Zpos (digits2_pos p)) in *.
  unfold binary_round. fold d. rewrite fexp_normal by lia.
  destruct (Z.eq_dec d 24) as [E | E].
  - rewrite shl_align_none by lia.
    exists p. rewrite binary_round_aux_exact by (fold d; lia).
    rewrite E. split; [f_equal; lia|]. split; [cbn; lia | exact E].
  - destruct (shl_align_left p ez (d + ez - 24)) as (mz & -> & Hmz); [lia|].
    replace (ez - (d + ez - 24)) with (24 - d) in Hmz by lia.
    assert (Zpos (digits2_pos mz) = 24) as Hdz.
    { apply digits2_unique. rewrite Hmz.
      replace (2 ^ (24 - 1)) with (2 ^ (d - 1) * 2 ^ (24 - d))
        by (rewrite <- Z.pow_add_r by lia; f_equal; lia).
      replace (2 ^ 24) with (2 ^ d * 2 ^ (24 - d))
        by (rewrite <- Z.pow_add_r by lia; f_equal; lia).
      assert (0 < 2 ^ (24 - d)) by (apply Z.pow_pos_nonneg; lia).
      nia. }
    exists mz. rewrite binary_round_aux_exact by lia.
    split; [reflexivity|]. split; assumption.
Qed.

Lemma round_nearest_even_spec (q : Z) (r st : bool) :
  round_nearest_even q
    (loc_of_shr_record {| shr_m := q; shr_r := r; shr_s := st |})
  = if r && (st || Z.odd q) then q + 1 else q.
Proof.
  destruct r, st; cbn; try reflexivity.
  rewrite <- Z.negb_odd. now destruct (Z.odd q).
Qed.

(** A longer mantissa is shifted down to 24 bits and rounded to nearest,
    ties to even; the rounding can carry into a 25th bit. *)
Lemma binary_round_long (s : bool) (p : positive) (ez : Z) :
  24 < Zpos (digits2_pos p) ->
  -125 <= Zpos (digits2_pos p) + ez <= 127 ->
  let n := Zpos (digits2_pos p) - 24 in
  let q := Zpos p / 2 ^ n in
  let up := Z.odd (Zpos p / 2 ^ (n - 1))
            && (negb (Zpos p mod 2 ^ (n - 1) =? 0) || Z.odd q) in
  let m1 := if up then q + 1 else q in
  2 ^ 23 <= q < 2 ^ 24
  /\ exists m,
       binary_round 24 128 s p ez
       = S754_finite s m (if m1 =? 2 ^ 24 then ez + n + 1 else ez + n)
       /\ Zpos m = (if m1 =? 2 ^ 24 then 2 ^ 23 else m1).
Proof.
  intros Hd Hr n q up m1. pose proof (digits2_bounds p) as Hb.
  set (d := Zpos (digits2_pos p)) in *.
  assert (0 < 2 ^ n) as Hn by (apply Z.pow_pos_nonneg; lia).
  assert (2 ^ 23 <= q < 2 ^ 24) as Hq.
  { assert (2 ^ (d - 1) = 2 ^ 23 * 2 ^ n) as E1
      by (rewrite <- Z.pow_add_r by lia; f_equal; lia).
    assert (2 ^ d = 2 ^ 24 * 2 ^ n) as E2
      by (rewrite <- Z.pow_add_r by lia; f_equal; lia).
    rewrite E1, E2 in Hb. unfold q. split.
    - apply Z.div_le_lower_bound; lia.
    - apply Z.div_lt_upper_bound; lia. }
  split; [exact Hq|].
  assert (q <= m1 <= q + 1) as Hm1 by (unfold m1; destruct up; lia).
  unfold binary_round. fold d. rewrite fexp_normal by lia.
  rewrite shl_align_none by lia.
  unfold binary_round_aux.
  assert (shr_fexp 24 128 (Zpos p) ez loc_Exact
          = ({| shr_m := q;
                shr_r := Z.odd (Zpos p / 2 ^ (n - 1));
                shr_s := negb (Zpos p mod 2 ^ (n - 1) =? 0) |}, ez + n)) as E1.
  { unfold shr_fexp. cbn [Zdigits2]. fold d. rewrite fexp_normal by lia.
    replace (d + ez - 24 - ez) with n by lia.
    cbn [shr_record_of_loc]. unfold shr.
    destruct n as [|n'|n'] eqn:En; try lia.
    rewrite shr_iter by lia. reflexivity. }
  rewrite E1. cbn [shr_m].
  rewrite round_nearest_even_spec. fold q. fold up. fold m1.
  destruct (Z.eqb_spec m1 (2 ^ 24)) as [E | E].
  - rewrite E. exists (8388608%positive).
    split; [|reflexivity].
    unfold shr_fexp. change (Zdigits2 (2 ^ 24)) with 25.
    rewrite fexp_normal by lia.
    replace (25 + (ez + n) - 24 - (ez + n)) with 1 by lia.
    cbn [shr_record_of_loc shr SpecFloat.iter_pos].
    change (shr_1 {| shr_m := 2 ^ 24; shr_r := false; shr_s := false |})
      with {| shr_m := 8388608; shr_r := false; shr_s := false |}.
    cbn [shr_m].
    destruct (Z.leb_spec (ez + n + 1) (128 - 24)); [reflexivity | lia].
  - destruct m1 as [|mp|mp] eqn:Em; try lia.
    exists mp. split; [|reflexivity].
    rewrite shr_fexp_none; [| apply digits2_unique; lia | lia].
    cbn [shr_m].
    destruct (Z.leb_spec (ez + n) (128 - 24)); [reflexivity | lia].
Qed.

Lemma gt_five_finite (m : positive) (e : Z) :
  SFltb (S754_finite false 10485760 (-21)) (S754_finite false m e)
  = (-21 <? e) || ((e =? -21) && (10485760 <? Zpos m)).
Proof.
  unfold SFltb, SFcompare.
  destruct (Z.compare_spec (-21) e) as [E | E | E].
  - subst e. change (Pos.compare_cont Eq 10485760 m) with (10485760 ?= Zpos m).
    change ((-21 <? -21) || ((-21 =? -21) && (10485760 <? Zpos m)))
      with (10485760 <? Zpos m).
    unfold Z.ltb. reflexivity.
  - destruct (Z.ltb_spec (-21) e); [reflexivity | lia].
  - destruct (Z.ltb_spec (-21) e); [lia|].
    destruct (Z.eqb_spec e (-21)); [lia | reflexivity].
Qed.

Lemma scaled_bounds (p : positive) (ez : Z) :
  -26 <= ez ->
  2 ^ (Zpos (digits2_pos p) + ez + 25) <= Zpos p * 2 ^ (ez + 26)
  < 2 ^ (Zpos (digits2_pos p) + ez + 26).
Proof.
  intros He. pose proof (digits2_bounds p) as Hb.
  set (d := Zpos (digits2_pos p)) in *.
  assert (0 < d) as Hd by (unfold d; lia).
  replace (d + ez + 25) with ((d - 1) + (ez + 26)) by lia.
  replace (d + ez + 26) with (d + (ez + 26)) by lia.
  rewrite (Z.pow_add_r 2 (d - 1)), (Z.pow_add_r 2 d) by lia.
  assert (0 < 2 ^ (ez + 26)) by (apply Z.pow_pos_nonneg; lia).
  split.
  - apply Z.mul_le_mono_nonneg_r; lia.
  - apply Z.mul_lt_mono_pos_r; lia.
Qed.

Lemma pow2_ge (a b : Z) : 0 <= a <= b -> 2 ^ a <= 2 ^ b.
Proof. intros H. apply Z.pow_le_mono_r; lia. Qed.

(** The rounded value of [p * 2^ez] is above 5 exactly when the exact
    value is above 5 by more than half a unit in the last place of 5, which
    is [2^-22]; in units of [2^-26] the bound is [5 * 2^26 + 16]. *)
Lemma round_gt_five (s : bool) (p : positive) (ez : Z) :
  -26 <= ez -> Zpos (digits2_pos p) + ez <= 100 ->
  SFltb (S754_finite false 10485760 (-21)) (SFabs (binary_round 24 128 s p ez))
  = (5 * 2 ^ 26 + 16 <? Zpos p * 2 ^ (ez + 26)).
Proof.
  intros He Hk. pose proof (scaled_bounds p ez He) as Hv.
  pose proof (digits2_bounds p) as Hb.
  set (d := Zpos (digits2_pos p)) in *.
  assert (0 < d) as Hd by (unfold d; lia).
  set (V := Zpos p * 2 ^ (ez + 26)) in *.
  assert (4 <= d + ez -> 2 ^ 29 <= V) as Hbig.
  { intros H. pose proof (pow2_ge 29 (d + ez + 25) ltac:(lia)). lia. }
  assert (d + ez <= 2 -> V < 2 ^ 28) as Hsmall.
  { intros H. pose proof (pow2_ge (d + ez + 26) 28 ltac:(lia)). lia. }
  destruct (Z_le_gt_dec d 24) as [Hshort | Hlong].
  - destruct (binary_round_short s p ez) as (m & -> & Hm & _); [assumption|lia|].
    cbn [SFabs]. rewrite gt_five_finite. fold d in Hm |- *.
    destruct (Z.ltb_spec (-21) (d + ez - 24)) as [H1 | H1].
    + destruct (Z.ltb_spec (5 * 2 ^ 26 + 16) V); [reflexivity | lia].
    + destruct (Z.eqb_spec (d + ez - 24) (-21)) as [H2 | H2].
      * assert (V = Zpos m * 32) as ->.
        { unfold V. rewrite Hm.
          replace (ez + 26) with ((24 - d) + 5) by lia.
          rewrite Z.pow_add_r by lia. change (2 ^ 5) with 32. lia. }
        cbn [orb andb].
        destruct (Z.ltb_spec 10485760 (Zpos m));
          destruct (Z.ltb_spec (5 * 2 ^ 26 + 16) (Zpos m * 32)); lia.
      * destruct (Z.ltb_spec (5 * 2 ^ 26 + 16) V); [lia | reflexivity].
  - destruct (binary_round_long s p ez) as (Hq & m & -> & Hm); [lia | lia |].
    cbn [SFabs]. rewrite gt_five_finite. fold d in Hq, Hm |- *.
    set (n := d - 24) in *.
    set (q := Zpos p / 2 ^ n) in *.
    set (r := Z.odd (Zpos p / 2 ^ (n - 1))) in *.
    set (st := negb (Zpos p mod 2 ^ (n - 1) =? 0)) in *.
    set (m1 := if r && (st || Z.odd q) then q + 1 else q) in *.
    assert (q <= m1 <= q + 1) as Hm1
      by (unfold m1; destruct (r && (st || Z.odd q)); lia).
    destruct (Z_le_gt_dec 4 (d + ez)) as [K4 | K4];
      [| destruct (Z_le_gt_dec (d + ez) 2) as [K2 | K2]].
    + (* the value is at least 8 *)
      destruct (Z.ltb_spec (5 * 2 ^ 26 + 16) V); [|lia].
      destruct (m1 =? 2 ^ 24);
        (destruct (Z.ltb_spec (-21) (ez + n + 1)); [reflexivity | lia])
        || (destruct (Z.ltb_spec (-21) (ez + n)); [reflexivity | lia]).
    + (* the value is below 4 *)
      destruct (Z.ltb_spec (5 * 2 ^ 26 + 16) V); [lia|].
      destruct (Z.eqb_spec m1 (2 ^ 24)) as [E | E].
      * rewrite Hm.
        destruct (Z.ltb_spec (-21) (ez + n + 1)); [lia|].
        destruct (Z.eqb_spec (ez + n + 1) (-21)); reflexivity.
      * destruct (Z.ltb_spec (-21) (ez + n)); [lia|].
        destruct (Z.eqb_spec (ez + n) (-21)); [lia | reflexivity].
    + (* the value is in [4, 8): the exponent of 5 *)
      assert (ez = -21 - n) as -> by lia.
      assert (1 <= n <= 5) as Hn by lia.
      assert (Z.odd (Zpos p / 2 ^ (n - 1)) = r) as Hr by reflexivity.
      assert (negb (Zpos p mod 2 ^ (n - 1) =? 0) = st) as Hst by reflexivity.
      assert (Zpos p / 2 ^ n = q) as Hqd by reflexivity.
      assert (V = Zpos p * 2 ^ (5 - n)) as HV
        by (unfold V; f_equal; f_equal; lia).
      assert ((if r && (st || Z.odd q) then q + 1 else q) = m1) as Hm1d
        by reflexivity.
      clearbody V m1 q r st. clear Hv Hb Hbig Hsmall He Hk.
      rewrite Zodd_mod in Hr. rewrite HV. clear HV V.
      destruct (Z.eqb_spec m1 (2 ^ 24)) as [E | E].
      * replace (-21 - n + n + 1) with (-20) by lia. cbn [Z.ltb Z.compare orb].
        symmetry. apply Z.ltb_lt.
        assert (q = 2 ^ 24 - 1) as Hq1 by lia.
        assert (n = 1 \/ n = 2 \/ n = 3 \/ n = 4 \/ n = 5) as Hcase by lia.
        destruct Hcase as [-> | [-> | [-> | [-> | ->]]]]; eval_pows;
          clear - Hqd Hq1; Z.div_mod_to_equations; lia.
      * replace (-21 - n + n) with (-21) by lia. rewrite Hm.
        change ((-21 <? -21) || ((-21 =? -21) && (10485760 <? m1)))
          with (10485760 <? m1).
        assert (n = 1 \/ n = 2 \/ n = 3 \/ n = 4 \/ n = 5) as Hcase by lia.
        rewrite Zodd_mod in Hm1d.
        destruct Hcase as [-> | [-> | [-> | [-> | ->]]]];
          eval_pows;
          destruct r, st;
          destruct (Z.eqb_spec (q mod 2) 1);
          cbn in Hm1d;
          destruct (Z.ltb_spec 10485760 m1);
          match goal with
          | |- _ = (?a <? ?b) => destruct (Z.ltb_spec a b)
          end;
          try reflexivity;
          match type of Hr with
          | (?x =? 1) = _ => destruct (Z.eqb_spec x 1)
          end;
          try discriminate;
          match type of Hst with
          | negb (?x =? 0) = _ => destruct (Z.eqb_spec x 0)
          end;
          try discriminate;
          Z.div_mod_to_equations; lia.
Qed.

(** [shl_align] to an exponent that is not larger keeps the value. *)
Lemma shl_align_value (mx : positive) (ex ez : Z) :
  ez <= ex -> Zpos (fst (shl_align mx ex ez)) = Zpos mx * 2 ^ (ex - ez).
Proof.
  intros H. destruct (Z.eq_dec ez ex) as [-> | Hne].
  - rewrite shl_align_none by lia. rewrite Z.sub_diag. cbn [fst]. lia.
  - destruct (shl_align_left mx ex ez) as (mz & -> & Hmz); [lia|]. exact Hmz.
Qed.

Lemma scaled_aligned (m : positive) (e ez : Z) :
  -26 <= ez <= e ->
  Zpos m * 2 ^ (e - ez) * 2 ^ (ez + 26) = Zpos m * 2 ^ (e + 26).
Proof.
  intros H. rewrite <- Z.mul_assoc, <- Z.pow_add_r by lia.
  f_equal. f_equal. lia.
Qed.

Lemma digits2_le (p : positive) (k : Z) :
  Zpos p < 2 ^ k -> Zpos (digits2_pos p) <= k.
Proof.
  intros H. pose proof (digits2_bounds p) as [Hlo _].
  destruct (Z_le_gt_dec (Zpos (digits2_pos p)) k) as [Hle | Hgt]; [exact Hle|].
  pose proof (pow2_ge k (Zpos (digits2_pos p) - 1)) as Hp.
  assert (0 <= k).
  { destruct (Z_le_gt_dec 0 k); [assumption|].
    rewrite Z.pow_neg_r in H by lia. lia. }
  lia.
Qed.

(** A canonical float is left as it is by the rounding. *)
Lemma binary_round_canonical (s : bool) (m : positive) (e : Z) :
  Zpos (digits2_pos m) = 24 -> -26 <= e <= -12 ->
  binary_round 24 128 s m e = S754_finite s m e.
Proof.
  intros Hd He.
  destruct (binary_round_short s m e) as (m' & -> & Hm & _); try lia.
  rewrite Hd in Hm |- *. change (2 ^ (24 - 24)) with 1 in Hm.
  f_equal; lia.
Qed.

(** The guard of the producer, on the integers the two averages are in
    units of [2^-26]. *)
Lemma exceeds_threshold_scaled (x y : CFloat.float) :
  average_shaped x = true -> average_shaped y = true ->
  Initial.exceeds_threshold x y
  = (5 * 2 ^ 26 + 16 <? Z.abs (scaled x - scaled y)).
Proof.
  intros Hx Hy. rewrite exceeds_threshold_unfold.
  unfold CFloat.float_gt, CFloat.float_abs, CFloat.float_sub.
  change (CFloat.float_of_int 5) with (S754_finite false 10485760 (-21)).
  destruct x as [[|] | | | [|] mx ex]; try discriminate Hx;
    destruct y as [[|] | | | [|] my ey]; try discriminate Hy.
  - reflexivity.
  - cbn [average_shaped] in Hy.
    apply andb_true_iff in Hy as [Hy Hy3]. apply andb_true_iff in Hy as [Hy1 Hy2].
    apply Z.eqb_eq in Hy1. apply Z.leb_le in Hy2, Hy3.
    cbn [SFsub negb SFabs scaled].
    replace (S754_finite false my ey)
      with (SFabs (binary_round 24 128 false my ey))
      by (rewrite binary_round_canonical by lia; reflexivity).
    rewrite round_gt_five by lia.
    cbn [scaled]. f_equal.
    assert (0 < Zpos my * 2 ^ (ey + 26))
      by (apply Z.mul_pos_pos; [|apply Z.pow_pos_nonneg]; lia).
    lia.
  - cbn [average_shaped] in Hx.
    apply andb_true_iff in Hx as [Hx Hx3]. apply andb_true_iff in Hx as [Hx1 Hx2].
    apply Z.eqb_eq in Hx1. apply Z.leb_le in Hx2, Hx3.
    cbn [SFsub SFabs scaled].
    replace (S754_finite false mx ex)
      with (SFabs (binary_round 24 128 false mx ex))
      by (rewrite binary_round_canonical by lia; reflexivity).
    rewrite round_gt_five by lia.
    cbn [scaled]. f_equal.
    assert (0 < Zpos mx * 2 ^ (ex + 26))
      by (apply Z.mul_pos_pos; [|apply Z.pow_pos_nonneg]; lia).
    lia.
  - cbn [average_shaped] in Hx, Hy.
    apply andb_true_iff in Hx as [Hx Hx3]. apply andb_true_iff in Hx as [Hx1 Hx2].
    apply Z.eqb_eq in Hx1. apply Z.leb_le in Hx2, Hx3.
    apply andb_true_iff in Hy as [Hy Hy3]. apply andb_true_iff in Hy as [Hy1 Hy2].
    apply Z.eqb_eq in Hy1. apply Z.leb_le in Hy2, Hy3.
    cbn [SFsub cond_Zopp scaled].
    set (ez := Z.min ex ey).
    assert (-26 <= ez <= ex /\ ez <= ey) as (Hez & Hezy) by (unfold ez; lia).
    rewrite !shl_align_value by lia.
    rewrite <- (scaled_aligned mx ex ez), <- (scaled_aligned my ey ez) by lia.
    rewrite <- Z.mul_sub_distr_r.
    pose proof (digits2_bounds mx) as Bx. rewrite Hx1 in Bx.
    pose proof (digits2_bounds my) as By. rewrite Hy1 in By.
    assert (0 < 2 ^ (ex - ez) <= 2 ^ 14 /\ 0 < 2 ^ (ey - ez) <= 2 ^ 14)
      as (Px & Py).
    { split; (split; [apply Z.pow_pos_nonneg; lia | apply pow2_ge; lia]). }
    assert (0 < 2 ^ (ez + 26)) as Pz by (apply Z.pow_pos_nonneg; lia).
    set (D := Zpos mx * 2 ^ (ex - ez) - Zpos my * 2 ^ (ey - ez)).
    assert (- 2 ^ 38 < D < 2 ^ 38) as HD.
    { unfold D. change (2 ^ 38) with (2 ^ 24 * 2 ^ 14). nia. }
    rewrite Z.abs_mul, (Z.abs_eq (2 ^ (ez + 26))) by lia.
    unfold binary_normalize.
    destruct D as [|p|p] eqn:ED.
    + reflexivity.
    + rewrite round_gt_five; [reflexivity | lia |].
      pose proof (digits2_le p 38 ltac:(lia)). lia.
    + rewrite round_gt_five; [reflexivity | lia |].
      pose proof (digits2_le p 38 ltac:(lia)). lia.
Qed.

Lemma representations_checked :
  all_from (Z.to_nat 20476) 0 representation_ok = true.
Proof.
  apply (all_from_weaken _ _ average_checks); [|exact all_averages_checked].
  intros k H. rewrite average_checks_unfold in H.
  apply andb_true_iff in H as [H _].
  apply andb_true_iff in H as [H Hclose].
  apply andb_true_iff in H as [H Hrep].
  apply andb_true_iff in H as [_ Hshape].
  unfold representation_ok. cbv zeta.
  rewrite Hshape, Hrep, Hclose. reflexivity.
Qed.

Lemma representation_facts (sum : Z) :
  0 <= sum <= 20475 ->
  average_shaped (sma_of_sum sum) = true
  /\ (CFloat.SF2Q (sma_of_sum sum) == scaled (sma_of_sum sum) # 67108864)%Q
  /\ Z.abs (5 * scaled (sma_of_sum sum) - sum * 2 ^ 26) <= 40960.
Proof.
  intros Hs.
  pose proof (all_from_spec _ _ _ representations_checked sum) as H.
  rewrite Z2Nat.id in H by lia. specialize (H ltac:(lia)).
  unfold representation_ok in H.
  apply andb_true_iff in H as [H Hclose].
  apply andb_true_iff in H as [Hshape Hrep].
  split; [assumption|]. split.
  - now apply Qeq_bool_iff in Hrep.
  - now apply Z.leb_le in Hclose.
Qed.

(** Distances between averages, in units of [2^-26]. *)
Lemma distance_scaled (x y : Q) (u v : Z) :
  (x == u # 67108864)%Q -> (y == v # 67108864)%Q ->
  (Qabs (x - y) == Z.abs (u - v) # 67108864)%Q.
Proof.
  intros -> ->.
  unfold Qminus, Qplus, Qopp, Qabs, Qeq. cbn [Qnum Qden]. lia.
Qed.

Lemma slack_scaled : (5 + (1 # 4194304) == (5 * 2 ^ 26 + 16) # 67108864)%Q.
Proof. reflexivity. Qed.

Lemma distance_above_slack (x y : Q) (u v : Z) :
  (x == u # 67108864)%Q -> (y == v # 67108864)%Q ->
  (5 + (1 # 4194304) < Qabs (x - y))%Q <-> 5 * 2 ^ 26 + 16 < Z.abs (u - v).
Proof.
  intros Hx Hy.
  rewrite (distance_scaled x y u v Hx Hy), slack_scaled.
  unfold Qlt. cbn [Qnum Qden]. lia.
Qed.

(** The guard [abs(newSMA - sma) > 5] on two averages of sensor readings:
    it holds exactly when the two binary32 values are more than
    [5 + 2^-22] apart, since their difference is rounded to the nearest
    binary32 value, ties to even, before it is compared with 5. *)
Lemma exceeds_threshold_exact (a b : Z) :
  0 <= a <= 20475 -> 0 <= b <= 20475 ->
  Initial.exceeds_threshold (sma_of_sum a) (sma_of_sum b) = true
  <-> (5 + (1 # 4194304)
       < Qabs (CFloat.SF2Q (sma_of_sum a) - CFloat.SF2Q (sma_of_sum b)))%Q.
Proof.
  intros Ha Hb.
  destruct (representation_facts a Ha) as (Sa & Ra & _).
  destruct (representation_facts b Hb) as (Sb & Rb & _).
  rewrite (exceeds_threshold_scaled _ _ Sa Sb).
  rewrite (distance_above_slack _ _ _ _ Ra Rb).
  apply Z.ltb_lt.
Qed.

(** In terms of the sums of the two windows, that is of five times the
    exact means: the guard holds when the sums are 26 or more apart and
    fails when they are 24 or less apart; at 25, where the means are
    exactly 5 apart, the rounding decides. *)
Lemma exceeds_threshold_on_sums (a b : Z) :
  0 <= a <= 20475 -> 0 <= b <= 20475 ->
  (26 <= Z.abs (a - b) ->
   Initial.exceeds_threshold (sma_of_sum a) (sma_of_sum b) = true)
  /\ (Z.abs (a - b) <= 24 ->
      Initial.exceeds_threshold (sma_of_sum a) (sma_of_sum b) = false).
Proof.
  intros Ha Hb.
  destruct (representation_facts a Ha) as (Sa & _ & Ca).
  destruct (representation_facts b Hb) as (Sb & _ & Cb).
  rewrite (exceeds_threshold_scaled _ _ Sa Sb).
  revert Ca Cb.
  generalize (scaled (sma_of_sum a)), (scaled (sma_of_sum b)).
  intros u v Ca Cb.
  change (2 ^ 26) with 67108864 in *.
  split; intros H.
  - apply Z.ltb_lt. lia.
  - apply Z.ltb_ge. lia.
Qed.

(** ** The states update 1 reaches *)

Lemma in_write_order_0 (hist : list Z) : in_write_order hist 0 = hist.
Proof. unfold in_write_order. cbn. apply app_nil_r. Qed.

Lemma buffer_sum_range (hist : list Z) :
  length hist = 5%nat -> Forall adc_reading hist ->
  sum5 hist = list_sumZ hist /\ 0 <= sum5 hist <= 20475.
Proof.
  intros Hlen Hadc.
  rewrite <- (in_write_order_0 hist) at 2.
  apply sum5_window; [assumption | lia |].
  now rewrite in_write_order_0.
Qed.

Lemma reachable_invariant (s : Initial.Shared) :
  Initial.reachable s ->
  length (Initial.lightHistory s) = 5%nat
  /\ 0 <= Initial.index s < 5
  /\ Forall adc_reading (Initial.lightHistory s)
  /\ exists b, 0 <= b <= 20475 /\ Initial.sma s = sma_of_sum b.
Proof.
  induction 1 as [| raw s Hraw Hs (Hlen & Hi & Hadc & b & Hb & Hsma)
                  | s Hs (Hlen & Hi & Hadc & b & Hb & Hsma)].
  - split; [reflexivity|]. split; [cbn; lia|]. split.
    + repeat constructor; unfold adc_reading; lia.
    + exists 0. split; [lia|]. vm_compute. reflexivity.
  - rewrite initial_round_unfold, initial_critical_unfold. cbv zeta.
    cbn [snd Initial.lightHistory Initial.index Initial.sma].
    assert (Forall adc_reading
              (write_slot (Initial.lightHistory s) (Initial.index s) raw))
      as Hadc' by (unfold write_slot; now apply Forall_insert).
    split; [now rewrite write_slot_length|].
    split; [now apply index_in_range|].
    split; [exact Hadc'|].
    destruct (Initial.exceeds_threshold _ _).
    + eexists. split; [|reflexivity].
      apply buffer_sum_range; [now rewrite write_slot_length | exact Hadc'].
    + exists b. split; assumption.
  - unfold Initial.vTaskLCD_round.
    destruct (Initial.dataChanged s); cbn [snd];
      [cbn [Initial.lightHistory Initial.index Initial.sma]|];
      (split; [assumption|]); (split; [assumption|]);
      (split; [assumption|]); exists b; split; assumption.
Qed.

(** What a producer round of update 1 computes and compares, in a state
    the sketch reaches. *)
Lemma initial_round_facts (raw : Z) (s : Initial.Shared) :
  Initial.reachable s -> adc_reading raw ->
  let hist := write_slot (Initial.lightHistory s) (Initial.index s) raw in
  let newSMA := sma_of_sum (sum5 hist) in
  (Qabs (CFloat.SF2Q newSMA - mean hist) <= tolerance)%Q
  /\ (Initial.exceeds_threshold newSMA (Initial.sma s) = true
      <-> (5 + (1 # 4194304)
           < Qabs (CFloat.SF2Q newSMA - CFloat.SF2Q (Initial.sma s)))%Q)
  /\ (forall stored_sum,
        0 <= stored_sum <= 20475 -> Initial.sma s = sma_of_sum stored_sum ->
        (26 <= Z.abs (sum5 hist - stored_sum) ->
         Initial.exceeds_threshold newSMA (Initial.sma s) = true)
        /\ (Z.abs (sum5 hist - stored_sum) <= 24 ->
            Initial.exceeds_threshold newSMA (Initial.sma s) = false)).
Proof.
  intros Hs Hraw hist newSMA.
  destruct (reachable_invariant s Hs) as (Hlen & Hi & Hadc & b & Hb & Hsma).
  assert (length hist = 5%nat) as Hlen'
    by (unfold hist; now rewrite write_slot_length).
  assert (Forall adc_reading hist) as Hadc'
    by (unfold hist, write_slot; now apply Forall_insert).
  destruct (buffer_sum_range hist Hlen' Hadc') as [_ Hrange].
  split; [|split].
  - now apply sma_close_to_buffer_mean.
  - unfold newSMA. rewrite Hsma. now apply exceeds_threshold_exact.
  - intros stored_sum Hstored ->. unfold newSMA.
    now apply exceeds_threshold_on_sums.
Qed.







(** ** Claims on the dirty flag, the display and the alarm *)

(** C3 (as amended).  A producer round of update 1 writes the reading into
    the buffer, computes [newSMA] as the binary32 quotient of the sum of the
    buffer it has just written, and sets [dataChanged] exactly when the
    guard [abs(newSMA - sma) > 5], evaluated in binary32, holds; otherwise
    the flag is what it was, and the stored average is replaced in the same
    case.  In every state the sketch reaches [newSMA] is within [tolerance]
    of the mean of the buffer, and the guard holds exactly when the two
    averages are more than [5 + 2^-22] apart: the difference is rounded to
    binary32 before it is compared with 5.  With the stored average that of
    a window of sum [stored_sum], the guard holds when the sums of the two
    windows are 26 or more apart and fails when they are 24 or less apart;
    at 25 the exact means are 5 apart and the rounding decides.  A display
    round renders the raw value and the truncated average exactly when the
    flag is up and leaves the flag down in that same round, changing nothing
    else. *)
Theorem C3_dirty_flag (raw : Z) (s : Initial.Shared) :
  (let hist := write_slot (Initial.lightHistory s) (Initial.index s) raw in
   let newSMA := sma_of_sum (sum5 hist) in
   let exceeded :=
     CFloat.float_gt
       (CFloat.float_abs (CFloat.float_sub newSMA (Initial.sma s)))
       (CFloat.float_of_int 5) in
   let s' := snd (Initial.vTaskLight_round raw s) in
   fst (Initial.vTaskLight_critical raw s) = newSMA
   /\ Initial.lightHistory s' = hist
   /\ Initial.lightLevel s' = raw
   /\ Initial.dataChanged s' = (exceeded || Initial.dataChanged s)
   /\ (Initial.dataChanged s = false ->
       (Initial.dataChanged s' = true <-> exceeded = true))
   /\ Initial.sma s' = (if exceeded then newSMA else Initial.sma s)
   /\ (Initial.reachable s -> adc_reading raw ->
       (Qabs (CFloat.SF2Q newSMA - mean hist) <= tolerance)%Q
       /\ (exceeded = true
           <-> (5 + (1 # 4194304)
                < Qabs (CFloat.SF2Q newSMA - CFloat.SF2Q (Initial.sma s)))%Q)
       /\ (forall stored_sum,
             0 <= stored_sum <= 20475 ->
             Initial.sma s = sma_of_sum stored_sum ->
             (26 <= Z.abs (sum5 hist - stored_sum) -> exceeded = true)
             /\ (Z.abs (sum5 hist - stored_sum) <= 24 -> exceeded = false))))
  /\
  (let s' := snd (Initial.vTaskLCD_round s) in
   lcd_ints (fst (Initial.vTaskLCD_round s))
   = (if Initial.dataChanged s
      then [Initial.lightLevel s; CFloat.int_of_float (Initial.sma s)]
      else [])
   /\ Initial.dataChanged s' = false
   /\ Initial.lightLevel s' = Initial.lightLevel s
   /\ Initial.lightHistory s' = Initial.lightHistory s
   /\ Initial.sma s' = Initial.sma s
   /\ Initial.index s' = Initial.index s).
Proof.
  split.
  - rewrite initial_round_unfold.
    rewrite (initial_critical_unfold raw s).
    cbv zeta. cbn [fst snd].
    rewrite <- exceeds_threshold_unfold.
    cbn [Initial.sma Initial.dataChanged Initial.lightHistory Initial.lightLevel].
    split; [reflexivity|]. split; [reflexivity|]. split; [reflexivity|].
    split; [|split; [|split]].
    + destruct (Initial.exceeds_threshold _ _); reflexivity.
    + intros ->. destruct (Initial.exceeds_threshold _ _); split; congruence.
    + reflexivity.
    + intros Hs Hraw. exact (initial_round_facts raw s Hs Hraw).
  - cbv zeta. unfold Initial.vTaskLCD_round.
    destruct (Initial.dataChanged s) eqn:E; cbn; auto 10.
Qed.

(** The scenario of the specification: five readings of 10 leave 6.0
    stored (the average of 10, 10, 10, 0, 0, the last that moved by more
    than 5); the reading of 50 gives 18.0, which is 12 away. *)
Lemma C3_witness :
  let s := snd (Initial.vTaskLight_round 10
             (snd (Initial.vTaskLight_round 10
                (snd (Initial.vTaskLight_round 10
                   (snd (Initial.vTaskLight_round 10
                      (snd (Initial.vTaskLight_round 10 Initial.init))))))))) in
  let newSMA :=
    sma_of_sum (sum5 (write_slot (Initial.lightHistory s) (Initial.index s) 50)) in
  CFloat.float_gt
    (CFloat.float_abs (CFloat.float_sub newSMA (Initial.sma s)))
    (CFloat.float_of_int 5) = true
  <-> (5 + (1 # 4194304)
       < Qabs (CFloat.SF2Q newSMA - CFloat.SF2Q (Initial.sma s)))%Q.
Proof.
  intros s newSMA.
  destruct (C3_dirty_flag 50 s) as ((_ & _ & _ & _ & _ & _ & H) & _).
  apply H.
  - unfold s.
    repeat (apply Initial.reachable_light; [unfold adc_reading; lia|]).
    apply Initial.reachable_init.
  - unfold adc_reading. lia.
Defined.

(** C3 as stated fails at the threshold, in both readings of "the
    difference".  After the readings 30, 0, 0, 0, 0, 2 and a display round
    the stored average is 0.4 in binary32; the reading 25 gives 5.4 in
    binary32; the two binary32 values are more than 5 apart and the flag
    stays down.  After 45, 0, 0, 0, 0, 18 and a display round the stored
    average is that of the sum 18, the reading 25 gives that of the sum 43:
    the exact means 3.6 and 8.6 are not more than 5 apart and the flag goes
    up. *)
Lemma C3_counterexample :
  (let s := snd (Initial.vTaskLCD_round
                   (Initial.producer_run [30; 0; 0; 0; 0; 2] Initial.init)) in
   let r := Initial.vTaskLight_critical 25 s in
   Initial.dataChanged s = false
   /\ (5 < Qabs (CFloat.SF2Q (fst r) - CFloat.SF2Q (Initial.sma s)))%Q
   /\ Initial.dataChanged (snd r) = false)
  /\
  (let s := snd (Initial.vTaskLCD_round
                   (Initial.producer_run [45; 0; 0; 0; 0; 18] Initial.init)) in
   let r := Initial.vTaskLight_critical 25 s in
   Initial.dataChanged s = false
   /\ Initial.sma s = sma_of_sum 18 /\ fst r = sma_of_sum 43
   /\ (mean (Initial.lightHistory (snd r)) - (18 # 5) == 5)%Q
   /\ Initial.dataChanged (snd r) = true).
Proof.
  vm_compute. repeat split; reflexivity.
Qed.

Lemma initial_anomalous_unfold (avg : CFloat.float) :
  Initial.anomalous avg
  = (CFloat.float_gt avg (CFloat.float_of_int 3800)
     || CFloat.float_lt avg (CFloat.float_of_int 300)).
Proof. reflexivity. Qed.

Lemma revised_anomalous_unfold (avg : CFloat.float) :
  Revised.anomalous avg
  = (CFloat.float_gt avg (CFloat.float_of_int 3800)
     || CFloat.float_lt avg (CFloat.float_of_int 300)).
Proof. reflexivity. Qed.

Lemma initial_alarm_unfold (s : Initial.Shared) :
  Initial.vTaskAnomaly_round s
  = if Initial.anomalous (Initial.sma s) then
      [SemaphoreTake;
       DigitalWrite 1 HIGH; TaskDelayMs 250; DigitalWrite 1 LOW; TaskDelayMs 250;
       DigitalWrite 1 HIGH; TaskDelayMs 250; DigitalWrite 1 LOW; TaskDelayMs 250;
       DigitalWrite 1 HIGH; TaskDelayMs 250; DigitalWrite 1 LOW; TaskDelayMs 250;
       TaskDelayMs 2000;
       SemaphoreGive]
    else [SemaphoreTake; SemaphoreGive].
Proof.
  unfold Initial.vTaskAnomaly_round.
  destruct (Initial.anomalous (Initial.sma s)); reflexivity.
Qed.

Lemma revised_alarm_unfold (anomaly : bool) (g : Revised.Shared) :
  Revised.vTaskAnomaly_round anomaly g
  = if Revised.anomalous (Revised.average g) || anomaly then
      ([SemaphoreTake; SemaphoreGive;
        DigitalWrite 2 HIGH; TaskDelayMs 250; DigitalWrite 2 LOW; TaskDelayMs 2000;
        DigitalWrite 2 HIGH; TaskDelayMs 250; DigitalWrite 2 LOW; TaskDelayMs 2000;
        DigitalWrite 2 HIGH; TaskDelayMs 250; DigitalWrite 2 LOW; TaskDelayMs 2000;
        TaskDelayMs 50],
       false)
    else ([SemaphoreTake; SemaphoreGive; TaskDelayMs 50], false).
Proof.
  unfold Revised.vTaskAnomaly_round.
  destruct (Revised.anomalous (Revised.average g)), anomaly; reflexivity.
Qed.

(** C4.  In update 2 no LED write and no delay of an alarm round executes
    while the semaphore is held: the round gives the semaphore back right
    after the take under which it reads the average, and everything after
    that is signalling.  Update 1 does not do so: its round gives the
    semaphore back last, every LED write and delay of the blink sequence
    lies between the take and the give, and signalling executes under the
    lock exactly on the rounds that blink. *)
Theorem C4_signalling_and_lock (anomaly : bool) (g : Revised.Shared)
  (s : Initial.Shared) :
  (signals_while_locked (fst (Revised.vTaskAnomaly_round anomaly g)) = false
   /\ exists rest,
        fst (Revised.vTaskAnomaly_round anomaly g)
        = SemaphoreTake :: SemaphoreGive :: rest
        /\ forallb is_signal rest = true)
  /\
  (signals_while_locked (Initial.vTaskAnomaly_round s)
   = Initial.anomalous (Initial.sma s)
   /\ exists mid,
        Initial.vTaskAnomaly_round s = [SemaphoreTake] ++ mid ++ [SemaphoreGive]
        /\ forallb is_signal mid = true).
Proof.
  split.
  - rewrite revised_alarm_unfold.
    destruct (Revised.anomalous (Revised.average g) || anomaly); cbn [fst].
    + split; [reflexivity|]. eexists. split; reflexivity.
    + split; [reflexivity|]. eexists. split; reflexivity.
  - rewrite initial_alarm_unfold.
    destruct (Initial.anomalous (Initial.sma s)).
    + split; [reflexivity|].
      exists [DigitalWrite 1 HIGH; TaskDelayMs 250; DigitalWrite 1 LOW; TaskDelayMs 250;
              DigitalWrite 1 HIGH; TaskDelayMs 250; DigitalWrite 1 LOW; TaskDelayMs 250;
              DigitalWrite 1 HIGH; TaskDelayMs 250; DigitalWrite 1 LOW; TaskDelayMs 250;
              TaskDelayMs 2000].
      split; reflexivity.
    + split; [reflexivity|]. exists []. split; reflexivity.
Qed.

(** C4, update 1: with a stored average of 4000 the LED writes and delays
    of the alarm round, 3.5 s of them, execute while the semaphore is
    held. *)
Lemma C4_counterexample :
  let s := Initial.mkShared 4000 [4000; 4000; 4000; 4000; 4000]
             (CFloat.float_of_int 4000) 0 false in
  signals_while_locked (Initial.vTaskAnomaly_round s) = true
  /\ annotate false (Initial.vTaskAnomaly_round s)
     = [(false, SemaphoreTake);
        (true, DigitalWrite 1 HIGH); (true, TaskDelayMs 250);
        (true, DigitalWrite 1 LOW); (true, TaskDelayMs 250);
        (true, DigitalWrite 1 HIGH); (true, TaskDelayMs 250);
        (true, DigitalWrite 1 LOW); (true, TaskDelayMs 250);
        (true, DigitalWrite 1 HIGH); (true, TaskDelayMs 250);
        (true, DigitalWrite 1 LOW); (true, TaskDelayMs 250);
        (true, TaskDelayMs 2000);
        (true, SemaphoreGive)].
Proof. vm_compute. split; reflexivity. Qed.

(** C5.  An alarm round blinks exactly when the average it reads is above
    3800 or below 300, and a round that blinks writes HIGH, LOW three times
    and nothing more; update 2's local flag is down again at the end of
    every round, so the next round decides afresh.  An average of 4000
    gives the three toggles in both updates. *)
Theorem C5_alarm_toggles (s : Initial.Shared) (g : Revised.Shared) :
  led_writes (Initial.vTaskAnomaly_round s)
  = (if CFloat.float_gt (Initial.sma s) (CFloat.float_of_int 3800)
        || CFloat.float_lt (Initial.sma s) (CFloat.float_of_int 300)
     then [HIGH; LOW; HIGH; LOW; HIGH; LOW] else [])
  /\ led_writes (fst (Revised.vTaskAnomaly_round false g))
     = (if CFloat.float_gt (Revised.average g) (CFloat.float_of_int 3800)
           || CFloat.float_lt (Revised.average g) (CFloat.float_of_int 300)
        then [HIGH; LOW; HIGH; LOW; HIGH; LOW] else [])
  /\ (forall anomaly, snd (Revised.vTaskAnomaly_round anomaly g) = false)
  /\ led_writes
       (Initial.vTaskAnomaly_round
          (Initial.mkShared (Initial.lightLevel s) (Initial.lightHistory s)
             (CFloat.float_of_int 4000) (Initial.index s) (Initial.dataChanged s)))
     = [HIGH; LOW; HIGH; LOW; HIGH; LOW]
  /\ led_writes
       (fst (Revised.vTaskAnomaly_round false
               (Revised.mkShared (Revised.light g) (CFloat.float_of_int 4000)
                  (Revised.changed g))))
     = [HIGH; LOW; HIGH; LOW; HIGH; LOW].
Proof.
  rewrite <- initial_anomalous_unfold, <- revised_anomalous_unfold.
  rewrite !initial_alarm_unfold.
  split; [|split; [|split; [|split]]].
  - destruct (Initial.anomalous (Initial.sma s)); reflexivity.
  - rewrite revised_alarm_unfold, orb_false_r.
    destruct (Revised.anomalous (Revised.average g)); reflexivity.
  - intros anomaly. rewrite revised_alarm_unfold.
    destruct (Revised.anomalous (Revised.average g) || anomaly); reflexivity.
  - reflexivity.
  - rewrite revised_alarm_unfold. reflexivity.
Qed.

(** X14.  On the averages of sensor readings the binary32 comparisons of
    the alarm tasks agree with the comparison of the exact mean [sum / 5]
    with the two thresholds: rounding moves no average across 300 or
    3800. *)
Lemma anomalous_on_readings (sum : Z) :
  0 <= sum <= 20475 ->
  Initial.anomalous (sma_of_sum sum) = true
  <-> (3800 < sum # 5 \/ sum # 5 < 300)%Q.
Proof.
  intros Hs. destruct (average_facts sum Hs) as (_ & _ & Hagree).
  rewrite initial_anomalous_unfold, <- revised_anomalous_unfold, Hagree.
  rewrite orb_true_iff, Z.ltb_lt, Z.ltb_lt.
  unfold Qlt. cbn [Qnum Qden]. lia.
Qed.

Lemma anomalous_on_readings_witness :
  Initial.anomalous (sma_of_sum 19001) = true
  <-> (3800 < 19001 # 5 \/ 19001 # 5 < 300)%Q.
Proof. apply (anomalous_on_readings 19001). lia. Defined.

(** ** Claims on startup *)

(** Update 2 gives the semaphore right after creating it: the lock is
    available when the tasks start, in whichever state the semaphore was
    created, and every pipeline round finds it, runs to its end and leaves
    it available. *)
Lemma revised_setup_lock_available (tok anomaly : bool) (raw : Z)
  (st : Revised.LightLocals * Revised.Shared) :
  FreeRTOS.semaphore (Revised.give_and_create_tasks (Some tok)) = Some true
  /\ FreeRTOS.semaphore (Revised.setup true) = Some true
  /\ map FreeRTOS.entry (FreeRTOS.created (Revised.setup true))
     = [FreeRTOS.LightTask; FreeRTOS.LCDTask; FreeRTOS.AnomalyTask;
        FreeRTOS.PrimeTask]
  /\ FreeRTOS.replay (Some true) (fst (Revised.vTaskLight_round raw st))
     = FreeRTOS.Returned true (Some true)
  /\ FreeRTOS.replay (Some true) (fst (Revised.vTaskAnomaly_round anomaly (snd st)))
     = FreeRTOS.Returned true (Some true).
Proof.
  split; [now destruct tok|]. split; [reflexivity|]. split; [reflexivity|].
  split; [now destruct st|].
  rewrite revised_alarm_unfold.
  destruct (Revised.anomalous (Revised.average (snd st)) || anomaly); reflexivity.
Qed.

(** When the semaphore cannot be created no task is created, in either
    update; update 2 does not reach its test, as it gives the NULL handle
    first. *)
Lemma setup_without_semaphore :
  FreeRTOS.created (Initial.setup false) = []
  /\ FreeRTOS.created (Revised.setup false) = []
  /\ FreeRTOS.aborted (Revised.setup false) = true.
Proof. repeat split. Qed.

(** C7, update 1.  [setup] creates the binary semaphore, which FreeRTOS
    creates empty, and never gives it: the semaphore the four tasks start
    with is in the state it was created in, that is empty, and every round
    of the three pipeline tasks stops at its first call, the take, which has
    to wait for a give that no task can reach. *)
Theorem C7_initial_setup_lock_empty (tok : bool) (s : Initial.Shared) (raw : Z) :
  let boot := Initial.setup true in
  FreeRTOS.semaphore (Initial.create_tasks (Some tok)) = Some tok
  /\ FreeRTOS.semaphore boot = Some false
  /\ map FreeRTOS.entry (FreeRTOS.created boot)
     = [FreeRTOS.LightTask; FreeRTOS.LCDTask; FreeRTOS.AnomalyTask;
        FreeRTOS.PrimeTask]
  /\ FreeRTOS.xSemaphoreTake (FreeRTOS.semaphore boot) = FreeRTOS.Blocked
  /\ FreeRTOS.replay (FreeRTOS.semaphore boot) (fst (Initial.vTaskLight_round raw s))
     = FreeRTOS.Blocked
  /\ FreeRTOS.replay (FreeRTOS.semaphore boot) (fst (Initial.vTaskLCD_round s))
     = FreeRTOS.Blocked
  /\ FreeRTOS.replay (FreeRTOS.semaphore boot) (Initial.vTaskAnomaly_round s)
     = FreeRTOS.Blocked.
Proof.
  cbv zeta. split; [reflexivity|]. split; [reflexivity|].
  split; [reflexivity|]. split; [reflexivity|]. split; [reflexivity|]. split.
  - unfold Initial.vTaskLCD_round.
    destruct (Initial.dataChanged s); reflexivity.
  - rewrite initial_alarm_unfold.
    destruct (Initial.anomalous (Initial.sma s)); reflexivity.
Qed.

(** ** Claims on the prime workload *)

Lemma initial_divisor_loop_crashes (fuel : nat) (num i : Z) :
  0 <= num -> Initial.divisor_loop (S fuel) num i 0 = Crashed [].
Proof.
  intros Hnum. cbn [Initial.divisor_loop].
  change (CInt.int_mul 0 0) with 0.
  destruct (Z.leb_spec 0 num) as [_ | Hlt]; [reflexivity | lia].
Qed.

Lemma initial_divisor_loop_skips (fuel : nat) (num i : Z) :
  num < 0 -> Initial.divisor_loop (S fuel) num i 0 = Finished [].
Proof.
  intros Hnum. cbn [Initial.divisor_loop].
  change (CInt.int_mul 0 0) with 0.
  destruct (Z.leb_spec 0 num) as [Hle | _]; [lia | reflexivity].
Qed.

Lemma initial_prime_loop_silent (fuel inner : nat) (num i : Z) :
  num < 0 -> 2 <= i <= 5001 -> 5001 - i < Z.of_nat fuel ->
  Initial.prime_loop fuel (S inner) num i = Finished [TaskDelete].
Proof.
  intros Hnum. revert i.
  induction fuel as [|fuel IH]; intros i Hi Hfuel; [lia|].
  cbn [Initial.prime_loop].
  destruct (Z.leb_spec i 5000) as [Hle | Hgt]; [|reflexivity].
  rewrite initial_divisor_loop_skips by assumption.
  rewrite int_add_small by lia.
  rewrite IH by lia. reflexivity.
Qed.

(** C9, update 1.  Whatever the value of [num]: when it is not negative the
    first pass of the inner loop divides by [j = 0] and the task stops there
    with nothing printed; when it is negative the inner loop never runs and
    the task deletes itself with nothing printed.  The prime 2 is not
    emitted in either case. *)
Theorem C9_initial_prime_task_prints_nothing (fuel : nat) (num : Z) :
  (5000 <= fuel)%nat ->
  (0 <= num -> Initial.vTaskPrime fuel num = Crashed [])
  /\ (num < 0 -> Initial.vTaskPrime fuel num = Finished [TaskDelete])
  /\ forall tr,
       Initial.vTaskPrime fuel num = Crashed tr
       \/ Initial.vTaskPrime fuel num = Finished tr ->
       ~ In 2 (serial_ints tr).
Proof.
  intros Hfuel.
  destruct fuel as [|fuel]; [lia|].
  assert (0 <= num -> Initial.vTaskPrime (S fuel) num = Crashed []) as Hcrash.
  { intros Hnum. unfold Initial.vTaskPrime. cbn [Initial.prime_loop].
    change (2 <=? 5000) with true. cbv iota.
    now rewrite initial_divisor_loop_crashes. }
  assert (num < 0 -> Initial.vTaskPrime (S fuel) num = Finished [TaskDelete])
    as Hsilent.
  { intros Hnum. unfold Initial.vTaskPrime.
    apply initial_prime_loop_silent; lia. }
  split; [exact Hcrash|]. split; [exact Hsilent|].
  intros tr Htr.
  destruct (Z.le_gt_cases 0 num) as [Hnum | Hnum].
  - rewrite (Hcrash Hnum) in Htr.
    destruct Htr as [[= <-] | [=]]. cbn. tauto.
  - rewrite (Hsilent Hnum) in Htr.
    destruct Htr as [[=] | [= <-]]. cbn. tauto.
Qed.

Lemma C9_initial_witness :
  Initial.vTaskPrime 5000 5000 = Crashed [].
Proof.
  apply (C9_initial_prime_task_prints_nothing 5000 5000); [apply le_n | lia].
Defined.

(** [isPrime] of update 2 returns, and returns true exactly when trial
    division finds no divisor. *)
Lemma isPrime_loop_spec (fuel : nat) (num i : Z) :
  2 <= i <= 46340 -> 0 <= num < 46340 * 46340 ->
  Z.max 0 (num - i + 1) < Z.of_nat fuel ->
  (forall d, 1 < d < i -> ~ (d | num)) ->
  exists b, Revised.isPrime_loop fuel num i = Finished b
            /\ (b = true <-> no_divisor_between num).
Proof.
  revert i. induction fuel as [|fuel IH]; intros i Hi Hnum Hfuel Hbelow; [lia|].
  cbn [Revised.isPrime_loop].
  rewrite int_mul_small by nia.
  destruct (Z.leb_spec (i * i) num) as [Hsq | Hsq].
  - unfold CInt.int_rem.
    destruct (Z.eqb_spec i 0) as [-> | _]; [lia|].
    destruct (Z.eqb_spec (Z.rem num i) 0) as [Hrem | Hrem].
    + exists false. split; [reflexivity|].
      split; [discriminate|]. intros Hnone. exfalso.
      apply (Hnone i); [nia|].
      apply Z.rem_divide; [lia | exact Hrem].
    + rewrite int_add_small by lia.
      apply IH; try lia; try nia.
      intros d Hd Hdiv.
      destruct (Z.eq_dec d i) as [-> | Hne].
      * apply Hrem. apply Z.rem_divide; [lia | exact Hdiv].
      * apply (Hbelow d); [lia | exact Hdiv].
  - exists true. split; [reflexivity|].
    split; [|reflexivity]. intros _ d Hd [q Hq].
    destruct (Z_lt_le_dec d i) as [Hlt | Hge].
    + apply (Hbelow d); [lia|]. now exists q.
    + assert (1 < q < i) as Hqi by nia.
      apply (Hbelow q Hqi). exists d. lia.
Qed.

Lemma isPrime_spec (fuel : nat) (num : Z) :
  2 <= num <= 5000 -> (5000 <= fuel)%nat ->
  exists b, Revised.isPrime fuel num = Finished b /\ (b = true <-> prime num).
Proof.
  intros Hnum Hfuel.
  destruct (isPrime_loop_spec fuel num 2) as (b & Hrun & Hb); try lia.
  exists b. split; [exact Hrun|].
  rewrite Hb. rewrite <- prime_alt. unfold Z.prime, no_divisor_between.
  intuition lia.
Qed.

(** The loop of [vTaskPrime] from [i] on: it ends, deletes the task as its
    last action, and prints the primes from [i] to 5000 in ascending
    order. *)
Lemma revised_prime_loop_spec (fuel inner : nat) (i : Z) :
  2 <= i <= 5001 -> 5001 - i < Z.of_nat fuel -> (5000 <= inner)%nat ->
  exists tr,
    Revised.prime_loop fuel inner i = Finished (tr ++ [TaskDelete])
    /\ ~ In TaskDelete tr
    /\ (forall n, In n (serial_ints tr) <-> i <= n <= 5000 /\ prime n)
    /\ StronglySorted Z.lt (serial_ints tr).
Proof.
  intros Hi Hfuel Hinner. revert i Hi Hfuel.
  induction fuel as [|fuel IH]; intros i Hi Hfuel; [lia|].
  cbn [Revised.prime_loop].
  destruct (Z.leb_spec i 5000) as [Hle | Hgt].
  - destruct (isPrime_spec inner i) as (b & -> & Hb); try lia.
    rewrite int_add_small by lia.
    destruct (IH (i + 1)) as (tr & -> & Hdel & Hmem & Hsorted); try lia.
    cbn [emit_before].
    exists ((if b then [SerialPrint "Prime: "; SerialPrintlnInt i] else [])
            ++ [TaskDelayMs 10] ++ tr).
    split; [now rewrite <- !app_assoc|].
    split.
    { intros Hin. apply in_app_or in Hin as [Hin | Hin].
      - destruct b; cbn in Hin; intuition discriminate.
      - cbn in Hin. destruct Hin as [Hin | Hin]; [discriminate | tauto]. }
    assert (serial_ints
              ((if b then [SerialPrint "Prime: "; SerialPrintlnInt i] else [])
               ++ [TaskDelayMs 10] ++ tr)
            = (if b then [i] else []) ++ serial_ints tr) as ->.
    { unfold serial_ints. rewrite flat_map_app. destruct b; reflexivity. }
    split.
    + intros n. rewrite in_app_iff, Hmem.
      destruct b; cbn [In].
      * assert (prime i) by now apply Hb.
        split.
        -- intros [[<- | []] | [Hn Hp]]; split; auto; lia.
        -- intros [Hn Hp].
           destruct (Z.eq_dec i n); [now left; left | right; split; [lia | auto]].
      * assert (~ prime i) by (rewrite <- Hb; discriminate).
        split.
        -- intros [[] | [Hn Hp]]; split; auto; lia.
        -- intros [Hn Hp]. right. split; [|exact Hp].
           destruct (Z.eq_dec i n) as [-> | Hne]; [tauto | lia].
    + destruct b; cbn [app]; [|exact Hsorted].
      constructor; [exact Hsorted|].
      apply List.Forall_forall. intros n Hn. apply Hmem in Hn. lia.
  - exists []. split; [reflexivity|]. split; [tauto|]. split.
    + intros n. cbn. split; [tauto | lia].
    + constructor.
Qed.

Lemma ascending_NoDup (l : list Z) : StronglySorted Z.lt l -> List.NoDup l.
Proof.
  induction 1 as [|n l Hs IH Hall]; constructor; auto.
  intros Hin. rewrite List.Forall_forall in Hall.
  specialize (Hall n Hin). lia.
Qed.

(** X13 (C9 on update 2).  With fuel for its 5000 loop tests the task
    ends; its trace is a body followed by the one [vTaskDelete], the numbers
    printed are exactly the primes of 2..5000, and they come in strictly
    ascending order, hence each once. *)
Theorem revised_prime_task_prints_primes (fuel : nat) :
  (5000 <= fuel)%nat ->
  exists tr,
    Revised.vTaskPrime fuel = Finished (tr ++ [TaskDelete])
    /\ ~ In TaskDelete tr
    /\ (forall n, In n (serial_ints tr) <-> 2 <= n <= 5000 /\ prime n)
    /\ StronglySorted Z.lt (serial_ints tr)
    /\ List.NoDup (serial_ints tr).
Proof.
  intros Hfuel.
  destruct (revised_prime_loop_spec fuel fuel 2)
    as (tr & Hrun & Hdel & Hmem & Hsorted); try lia.
  exists tr.
  split; [exact Hrun|]. split; [exact Hdel|]. split; [exact Hmem|].
  split; [exact Hsorted|].
  now apply ascending_NoDup.
Qed.

Lemma revised_prime_task_witness :
  exists tr,
    Revised.vTaskPrime 5000 = Finished (tr ++ [TaskDelete])
    /\ ~ In TaskDelete tr
    /\ (forall n, In n (serial_ints tr) <-> 2 <= n <= 5000 /\ prime n)
    /\ StronglySorted Z.lt (serial_ints tr)
    /\ List.NoDup (serial_ints tr).
Proof. apply (revised_prime_task_prints_primes 5000). apply le_n. Defined.


(** ** Claims on the budget monitor *)

Section PartIFacts.

Variable portTICK_PERIOD_MS : Z.
Hypothesis tick_positive : 0 < portTICK_PERIOD_MS.

Let timeSlice := PartI.timeSlice portTICK_PERIOD_MS.

Lemma ms_to_ticks_range (ms : Z) :
  0 <= ms -> 0 <= CInt.tick_div ms portTICK_PERIOD_MS <= ms.
Proof.
  intros Hms. unfold CInt.tick_div. split.
  - apply Z.div_pos; lia.
  - apply Z.div_le_upper_bound; nia.
Qed.

Lemma timeSlice_range : 0 <= timeSlice <= 1000.
Proof. apply ms_to_ticks_range. lia. Qed.

(** The first statement of the budget update: a clamped decrement. *)
Lemma countdown_spec (r : Z) :
  0 <= r < 2 ^ 32 ->
  PartI.countdown portTICK_PERIOD_MS r
  = if r <=? timeSlice then 0 else r - timeSlice.
Proof.
  intros Hr. pose proof timeSlice_range as Hts.
  unfold PartI.countdown. fold timeSlice.
  destruct (Z.ltb_spec 0 r) as [Hpos | Hzero];
    destruct (Z.ltb_spec timeSlice r) as [Hgt | Hle];
    destruct (Z.leb_spec r timeSlice) as [Hle' | Hgt']; try lia.
  unfold CInt.tick_sub, CInt.wrapu32. apply Z.mod_small. lia.
Qed.

(** Both statements: the reload happens in the round of the decrement. *)
Lemma budget_update_spec (period r : Z) :
  0 <= r <= period -> period < 2 ^ 32 ->
  let r1 := PartI.countdown portTICK_PERIOD_MS r in
  let r2 := PartI.reload period r1 in
  0 <= r1 <= period
  /\ r2 = (if r <=? timeSlice then period else r - timeSlice)
  /\ 0 <= r2 <= period.
Proof.
  intros Hr Hp. cbv zeta. pose proof timeSlice_range as Hts.
  rewrite countdown_spec by lia. unfold PartI.reload.
  destruct (Z.leb_spec r timeSlice) as [Hle | Hgt].
  - cbn. lia.
  - destruct (Z.eqb_spec (r - timeSlice) 0); lia.
Qed.

Lemma periods_range (t : PartI.task) :
  0 <= PartI.period_of portTICK_PERIOD_MS t < 2 ^ 32.
Proof.
  destruct t; cbn [PartI.period_of];
    unfold PartI.ledTaskExecutionTime, PartI.counterTaskExecutionTime,
      PartI.alphabetTaskExecutionTime;
    try (match goal with
         | |- context [CInt.tick_div ?ms _] =>
             pose proof (ms_to_ticks_range ms ltac:(lia))
         end);
    lia.
Qed.

Lemma init_in_range :
  PartI.in_range portTICK_PERIOD_MS (PartI.init portTICK_PERIOD_MS).
Proof.
  pose proof (periods_range PartI.LedTask).
  pose proof (periods_range PartI.CounterTask).
  pose proof (periods_range PartI.AlphabetTask).
  unfold PartI.in_range, PartI.init. cbn in *. lia.
Qed.

Lemma counter_update_spec (c : Z) :
  1 <= c <= 20 ->
  (if 20 <? CInt.int_add c 1 then 1 else CInt.int_add c 1)
  = (if c =? 20 then 1 else c + 1).
Proof.
  intros Hc. rewrite int_add_small by lia.
  destruct (Z.ltb_spec 20 (c + 1)), (Z.eqb_spec c 20); lia.
Qed.

Lemma step_in_range (t : PartI.task) (st : bool * PartI.Globals) :
  PartI.in_range portTICK_PERIOD_MS (snd st) ->
  PartI.in_range portTICK_PERIOD_MS (snd (PartI.step portTICK_PERIOD_MS t st)).
Proof.
  destruct st as [b g]. unfold PartI.in_range. cbn [snd fst].
  intros (Hled & Hcnt & Halp & Hc).
  pose proof (periods_range PartI.LedTask) as Pl.
  pose proof (periods_range PartI.CounterTask) as Pc.
  pose proof (periods_range PartI.AlphabetTask) as Pa.
  cbn [PartI.period_of] in Pl, Pc, Pa.
  destruct t; cbn -[PartI.countdown PartI.reload CInt.int_add].
  - destruct (budget_update_spec _ _ Hled ltac:(lia)) as (_ & _ & H). tauto.
  - destruct (budget_update_spec _ _ Hcnt ltac:(lia)) as (_ & _ & H).
    rewrite counter_update_spec by lia.
    destruct (Z.eqb_spec (PartI.currentCount g) 20); repeat split; lia.
  - destruct (budget_update_spec _ _ Halp ltac:(lia)) as (_ & _ & H). tauto.
  - tauto.
Qed.

Lemma run_in_range (sched : list PartI.task) (st : bool * PartI.Globals) :
  PartI.in_range portTICK_PERIOD_MS (snd st) ->
  PartI.in_range portTICK_PERIOD_MS
    (snd (PartI.run_schedule portTICK_PERIOD_MS sched st)).
Proof.
  revert st. induction sched as [|t sched IH]; intros st Hst; [exact Hst|].
  cbn [PartI.run_schedule fold_left]. apply IH. now apply step_in_range.
Qed.

(** C6 (as amended).  In every state reached by rounds of the four tasks
    in any order, the remaining time of each periodic task lies between 0
    and its period, also between the two statements of its update; the
    round of the owning task in which the decrement reaches 0 reloads the
    period before it ends, so at the end of a round the counter is the
    period when it was at most one time slice and one time slice less
    otherwise, and is never 0 for a positive period; no round of another
    task changes it. *)
Theorem C6_budget_sawtooth (sched : list PartI.task) (b : bool) (t : PartI.task) :
  t <> PartI.SchedulerTask ->
  let st := PartI.run_schedule portTICK_PERIOD_MS sched
              (b, PartI.init portTICK_PERIOD_MS) in
  let r := PartI.remaining_of t (snd st) in
  let period := PartI.period_of portTICK_PERIOD_MS t in
  let r' := PartI.remaining_of t (snd (PartI.step portTICK_PERIOD_MS t st)) in
  0 <= r <= period
  /\ 0 <= PartI.countdown portTICK_PERIOD_MS r <= period
  /\ r' = PartI.reload period (PartI.countdown portTICK_PERIOD_MS r)
  /\ r' = (if r <=? PartI.timeSlice portTICK_PERIOD_MS then period
           else r - PartI.timeSlice portTICK_PERIOD_MS)
  /\ 0 <= r' <= period
  /\ (0 < period -> 0 < r')
  /\ forall t', t' <> t ->
       PartI.remaining_of t (snd (PartI.step portTICK_PERIOD_MS t' st)) = r.
Proof.
  intros Ht st r period r'.
  pose proof (run_in_range sched (b, PartI.init portTICK_PERIOD_MS) init_in_range)
    as Hinv.
  fold st in Hinv. destruct st as [b' g]. cbn [snd] in *.
  destruct Hinv as (Hled & Hcnt & Halp & _).
  pose proof (periods_range t) as Hp. fold period in Hp.
  pose proof timeSlice_range as Hts. unfold timeSlice in Hts.
  assert (0 <= r <= period) as Hr by (destruct t; [exact Hled | exact Hcnt | exact Halp | tauto]).
  destruct (budget_update_spec period r Hr ltac:(lia)) as (H1 & H2 & H3).
  fold timeSlice in H2.
  assert (r' = PartI.reload period (PartI.countdown portTICK_PERIOD_MS r)) as Hr'
    by (destruct t; [reflexivity | reflexivity | reflexivity | tauto]).
  unfold timeSlice in H2.
  split; [exact Hr|]. split; [exact H1|]. split; [exact Hr'|].
  split; [now rewrite Hr'|]. split; [now rewrite Hr'|]. split.
  - intros Hpos. rewrite Hr', H2.
    destruct (Z.leb_spec r (PartI.timeSlice portTICK_PERIOD_MS)); lia.
  - intros t' Hne. destruct t, t'; try reflexivity; tauto.
Qed.

End PartIFacts.

Lemma C6_witness :
  let st := PartI.run_schedule 1 [PartI.CounterTask; PartI.LedTask] (false, PartI.init 1) in
  0 <= PartI.remainingCounterTime (snd st) <= 2000
  /\ 0 <= PartI.countdown 1 (PartI.remainingCounterTime (snd st)) <= 2000
  /\ PartI.remainingCounterTime (snd (PartI.step 1 PartI.CounterTask st)) = 2000.
Proof.
  intros st.
  pose proof (C6_budget_sawtooth 1 ltac:(lia)
                [PartI.CounterTask; PartI.LedTask] false PartI.CounterTask
                ltac:(discriminate)) as H.
  cbv zeta in H. fold st in H.
  destruct H as (H1 & H2 & _ & H4 & _).
  split; [exact H1|]. split; [exact H2|]. exact H4.
Defined.

(** C6 as stated fails: with a tick of 1 ms the counter task goes from 2000
    to 1000 in its first round; in its second round the decrement reaches
    exactly 0 and the same round reloads 2000, so the counter is never
    seen at 0 after a round and there is no later round that brings it
    back. *)
Lemma C6_counterexample :
  let g1 := snd (PartI.counterTask_round 1 (PartI.init 1)) in
  let g2 := snd (PartI.counterTask_round 1 g1) in
  PartI.remainingCounterTime g1 = 1000
  /\ PartI.countdown 1 (PartI.remainingCounterTime g1) = 0
  /\ PartI.remainingCounterTime g2 = 2000
  /\ PartI.remainingCounterTime g2 <> 0.
Proof. vm_compute. repeat split; discriminate. Qed.

(** C8.  A round of the scheduler task delays for 500 ticks and returns
    the globals it was given: the local [minRemaining] it computes is the
    minimum of the three remaining times and is used for nothing, and in
    the system the round changes neither the globals nor the LED flag. *)
Theorem C8_monitor_reads_only (portTICK_PERIOD_MS : Z) (g : PartI.Globals) (b : bool) :
  PartI.scheduleTasks_round g
  = ([TaskDelay 500],
     Z.min (Z.min (PartI.remainingLedTime g) (PartI.remainingCounterTime g))
       (PartI.remainingAlphabetTime g),
     g)
  /\ PartI.step portTICK_PERIOD_MS PartI.SchedulerTask (b, g) = (b, g).
Proof.
  split; [|reflexivity].
  unfold PartI.scheduleTasks_round. do 2 f_equal.
  destruct (Z.ltb_spec (PartI.remainingCounterTime g) (PartI.remainingLedTime g));
    destruct (Z.ltb_spec (PartI.remainingAlphabetTime g) (PartI.remainingCounterTime g));
    destruct (Z.ltb_spec (PartI.remainingAlphabetTime g) (PartI.remainingLedTime g));
    lia.
Qed.

(** C10.  [currentCount] starts at 1; a round of the counter task shows the
    current value and then stores its successor, or 1 after 20; the other
    tasks leave it alone.  So in every state reached by rounds of the four
    tasks in any order the count is in 1..20, and a counter round started
    in that range ends in it. *)
Theorem C10_counter_range (portTICK_PERIOD_MS : Z) (sched : list PartI.task)
  (b : bool) (g : PartI.Globals) :
  PartI.currentCount (PartI.init portTICK_PERIOD_MS) = 1
  /\ 1 <= PartI.currentCount
            (snd (PartI.run_schedule portTICK_PERIOD_MS sched
                    (b, PartI.init portTICK_PERIOD_MS))) <= 20
  /\ (1 <= PartI.currentCount g <= 20 ->
      let r := PartI.counterTask_round portTICK_PERIOD_MS g in
      PartI.currentCount (snd r)
      = (if PartI.currentCount g =? 20 then 1 else PartI.currentCount g + 1)
      /\ 1 <= PartI.currentCount (snd r) <= 20
      /\ hd_error (fst r) = Some (LcdPrintLine (PartI.count_text (PartI.currentCount g)))
      /\ forall t, t <> PartI.CounterTask ->
           PartI.currentCount (snd (PartI.step portTICK_PERIOD_MS t (b, g)))
           = PartI.currentCount g).
Proof.
  assert (forall g0 : PartI.Globals, 1 <= PartI.currentCount g0 <= 20 ->
          PartI.currentCount (snd (PartI.counterTask_round portTICK_PERIOD_MS g0))
          = (if PartI.currentCount g0 =? 20 then 1 else PartI.currentCount g0 + 1))
    as Hround.
  { intros g0 Hc. cbn [PartI.counterTask_round snd PartI.currentCount].
    now apply counter_update_spec. }
  assert (forall t st, 1 <= PartI.currentCount (snd st) <= 20 ->
          1 <= PartI.currentCount (snd (PartI.step portTICK_PERIOD_MS t st)) <= 20)
    as Hstep.
  { intros t [b0 g0] Hc. cbn [snd] in Hc.
    destruct t; try exact Hc.
    cbn [PartI.step snd fst]. rewrite Hround by exact Hc.
    destruct (Z.eqb_spec (PartI.currentCount g0) 20); lia. }
  split; [reflexivity|]. split.
  - assert (forall st, 1 <= PartI.currentCount (snd st) <= 20 ->
            1 <= PartI.currentCount
                   (snd (PartI.run_schedule portTICK_PERIOD_MS sched st)) <= 20)
      as Hrun.
    { induction sched as [|t sched' IH]; intros st Hst; [exact Hst|].
      cbn [PartI.run_schedule fold_left]. apply IH. now apply Hstep. }
    apply Hrun. cbn. lia.
  - intros Hc. cbv zeta.
    split; [now apply Hround|]. split.
    + rewrite Hround by exact Hc.
      destruct (Z.eqb_spec (PartI.currentCount g) 20); lia.
    + split; [reflexivity|].
      intros t Ht. destruct t; try reflexivity. tauto.
Qed.

Lemma C10_witness :
  let g := PartI.mkGlobals 500 2000 13000 20 65 in
  PartI.currentCount (snd (PartI.counterTask_round 1 g)) = 1.
Proof.
  intros g.
  apply (C10_counter_range 1 [] false g).
  cbn. lia.
Defined.


(** * Further properties of the sketches *)

(** ** The producer's cursor and buffer *)

Lemma cursor_step (k : Z) :
  0 <= k -> Z.rem (CInt.int_add (k mod 5) 1) 5 = (k + 1) mod 5.
Proof.
  intros Hk. pose proof (Z.mod_pos_bound k 5 ltac:(lia)) as Hm.
  rewrite int_add_small by lia.
  rewrite Z.rem_mod_nonneg by lia.
  now rewrite Zplus_mod_idemp_l.
Qed.

Lemma initial_producer_cursor (samples : list Z) :
  let s := Initial.producer_run samples Initial.init in
  Initial.index s = Z.of_nat (length samples) mod 5
  /\ Initial.lightLevel s = List.last samples 0.
Proof.
  induction samples as [|raw pre IH] using rev_ind; [split; reflexivity|].
  cbn zeta in *. destruct IH as [Hidx _].
  rewrite initial_producer_run_snoc.
  destruct (initial_critical_buffer raw (Initial.producer_run pre Initial.init))
    as (_ & -> & -> & _).
  rewrite Hidx, cursor_step by lia.
  rewrite length_app, List.last_last. cbn [length].
  split; [f_equal; lia | reflexivity].
Qed.

Lemma revised_producer_cursor (garbage samples : list Z) :
  let st := Revised.producer_run samples
              (Revised.light_locals garbage, Revised.init) in
  Revised.index (fst st) = Z.of_nat (length samples) mod 5
  /\ Revised.light (snd st) = List.last samples 0.
Proof.
  induction samples as [|raw pre IH] using rev_ind; [split; reflexivity|].
  cbn zeta in *. destruct IH as [Hidx _].
  rewrite revised_producer_run_snoc.
  destruct (Revised.producer_run pre (Revised.light_locals garbage, Revised.init))
    as [l g].
  cbn [fst snd] in Hidx.
  cbn [Revised.vTaskLight_round fst snd Revised.index Revised.light].
  rewrite Hidx, cursor_step by lia.
  rewrite length_app, List.last_last. cbn [length].
  split; [f_equal; lia | reflexivity].
Qed.

(** X1.  After k writes, for any k and any samples, the producer's buffer
    still has its five slots and the write cursor is k mod 5, so a write
    never lands outside the array; the raw value the consumers see is the
    last sample written.  In both updates; update 2 from any contents of its
    uninitialised array. *)
Theorem X1_cursor_follows_writes (samples garbage : list Z) :
  length garbage = 5%nat ->
  let s := Initial.producer_run samples Initial.init in
  let st := Revised.producer_run samples
              (Revised.light_locals garbage, Revised.init) in
  (length (Initial.lightHistory s) = 5%nat
   /\ Initial.index s = Z.of_nat (length samples) mod 5
   /\ Initial.lightLevel s = List.last samples 0)
  /\ (length (Revised.lightHistory (fst st)) = 5%nat
      /\ Revised.index (fst st) = Z.of_nat (length samples) mod 5
      /\ Revised.light (snd st) = List.last samples 0).
Proof.
  intros Hg s st.
  destruct (initial_producer_window samples) as (Hlen & _ & _).
  destruct (initial_producer_cursor samples) as (Hidx & Hraw).
  destruct (revised_producer_window garbage samples Revised.init Hg)
    as (Hlen' & _ & _).
  destruct (revised_producer_cursor garbage samples) as (Hidx' & Hraw').
  repeat split; assumption.
Qed.

Lemma X1_witness :
  let samples := [7; 8; 9; 10; 11; 12; 13] in
  let st := Revised.producer_run samples
              (Revised.light_locals [0; -1; 5000; 3; 3], Revised.init) in
  Revised.index (fst st) = 2 /\ Revised.light (snd st) = 13.
Proof.
  intros samples st.
  destruct (X1_cursor_follows_writes samples [0; -1; 5000; 3; 3] eq_refl)
    as (_ & _ & Hidx & Hraw).
  split; [exact Hidx | exact Hraw].
Defined.

(** X2.  Before the buffer has filled the slots not yet written take part
    in the average: after any number of writes the buffer in write order is
    the last five of its initial contents followed by the samples.  In
    update 1 the initial contents are zeros, so the average computed after
    k <= 5 readings is near the sum of the readings over 5, not over k; in
    update 2 they are whatever the uninitialised array held. *)
Theorem X2_warm_up_window (pre : list Z) (raw : Z) (garbage : list Z) :
  length garbage = 5%nat ->
  let samples := pre ++ [raw] in
  let r := Initial.vTaskLight_critical raw (Initial.producer_run pre Initial.init) in
  let st := Revised.producer_run samples
              (Revised.light_locals garbage, Revised.init) in
  in_write_order (Initial.lightHistory (snd r)) (Initial.index (snd r))
  = last_n 5 ([0; 0; 0; 0; 0] ++ samples)
  /\ in_write_order (Revised.lightHistory (fst st)) (Revised.index (fst st))
     = last_n 5 (garbage ++ samples)
  /\ (Forall adc_reading samples -> (length samples <= 5)%nat ->
      (Qabs (CFloat.SF2Q (fst r) - (list_sumZ samples # 5)) <= tolerance)%Q).
Proof.
  intros Hg samples r st.
  pose proof (initial_producer_window (pre ++ [raw])) as Hwin.
  cbn zeta in Hwin. rewrite !initial_producer_run_snoc in Hwin.
  fold samples in Hwin. destruct Hwin as (Hlen & Hi & Hwin).
  destruct (revised_producer_window garbage samples Revised.init Hg)
    as (_ & _ & Hwin').
  split; [exact Hwin|]. split; [exact Hwin'|].
  intros Hadc Hk.
  assert (Forall adc_reading ([0; 0; 0; 0; 0] ++ samples)) as Hpad.
  { apply Forall_app. split; [|exact Hadc].
    repeat constructor; unfold adc_reading; lia. }
  pose proof (sma_close_to_mean _ _ _ Hlen Hi Hwin
                (last_n_Forall _ 5 _ Hpad)) as Hclose.
  unfold r.
  destruct (initial_critical_buffer raw (Initial.producer_run pre Initial.init))
    as (_ & _ & _ & ->).
  assert (mean (last_n 5 ([0; 0; 0; 0; 0] ++ samples)) = list_sumZ samples # 5)
    as <-; [|exact Hclose].
  clear - Hk.
  destruct samples as [|a [|b [|c [|d [|e [|f t]]]]]]; cbn in Hk; try lia;
    unfold mean; cbn; f_equal; lia.
Qed.

Lemma X2_witness :
  let r := Initial.vTaskLight_critical 200 (Initial.producer_run [100] Initial.init) in
  (Qabs (CFloat.SF2Q (fst r) - (300 # 5)) <= tolerance)%Q.
Proof.
  intros r.
  destruct (X2_warm_up_window [100] 200 [1; 2; 3; 4; 5] eq_refl) as (_ & _ & H).
  apply H.
  - repeat constructor; unfold adc_reading; lia.
  - cbn. lia.
Defined.

(** ** What the display shows *)

Lemma truncations_checked : all_from (Z.to_nat 20476) 0 truncation_agrees = true.
Proof.
  apply (all_from_weaken _ _ average_checks); [|exact all_averages_checked].
  intros k H. rewrite average_checks_unfold in H.
  apply andb_true_iff in H as [_ H]. exact H.
Qed.

Lemma truncation_fact (sum : Z) :
  0 <= sum <= 20475 -> CFloat.int_of_float (sma_of_sum sum) = sum / 5.
Proof.
  intros Hs.
  pose proof (all_from_spec _ _ _ truncations_checked sum) as H.
  rewrite Z2Nat.id in H by lia. specialize (H ltac:(lia)).
  unfold truncation_agrees in H. now apply Z.eqb_eq in H.
Qed.

Lemma truncated_average (hist : list Z) :
  length hist = 5%nat -> Forall adc_reading hist ->
  CFloat.int_of_float (sma_of_sum (sum5 hist)) = list_sumZ hist / 5.
Proof.
  intros Hlen Hadc.
  assert (in_write_order hist 0 = hist) as Hrot
    by (unfold in_write_order; cbn; apply app_nil_r).
  destruct (sum5_window hist 0 Hlen ltac:(lia)) as [Hsum Hrange];
    [now rewrite Hrot|].
  rewrite Hrot in Hsum. rewrite <- Hsum.
  now apply truncation_fact.
Qed.

Lemma float_ne_self (x : CFloat.float) :
  x <> S754_nan -> CFloat.float_ne x x = false.
Proof.
  intros Hx. unfold CFloat.float_ne, SFeqb.
  destruct x as [s | s | | s m e]; try congruence.
  - reflexivity.
  - now destruct s.
  - cbn [SFcompare]. rewrite Z.compare_refl, Pos.compare_cont_refl.
    now destruct s.
Qed.

Lemma revised_light_round_unfold (raw : Z) (l : Revised.LightLocals)
  (g : Revised.Shared) :
  Revised.vTaskLight_round raw (l, g)
  = ([SemaphoreTake; SemaphoreGive; TaskDelayMs 100],
     ({| Revised.lightHistory :=
           write_slot (Revised.lightHistory l) (Revised.index l) raw;
         Revised.index := Z.rem (CInt.int_add (Revised.index l) 1) 5 |},
      {| Revised.light := raw;
         Revised.average :=
           sma_of_sum (sum5 (write_slot (Revised.lightHistory l)
                               (Revised.index l) raw));
         Revised.changed := Revised.changed g |})).
Proof. reflexivity. Qed.

Lemma revised_lcd_unfold (l : Revised.LCDLocals) (g : Revised.Shared) :
  Revised.vTaskLCD_round l g
  = if negb (Revised.light g =? Revised.prevLight l)
       || CFloat.float_ne (Revised.average g) (Revised.prevAverage l)
    then
      ([SemaphoreTake;
        LcdClear; LcdSetCursor 0 0; LcdPrintStr "Light: ";
        LcdPrintInt (Revised.light g);
        LcdSetCursor 0 1; LcdPrintStr "SMA: ";
        LcdPrintInt (CFloat.int_of_float (Revised.average g));
        SemaphoreGive; TaskDelayMs 250],
       {| Revised.prevAverage := Revised.average g;
          Revised.prevLight := Revised.light g |})
    else ([SemaphoreTake; SemaphoreGive; TaskDelayMs 250], l).
Proof. reflexivity. Qed.

(** X3.  Update 2: the display round that follows a producer round renders,
    when the raw value or the average differs from what it rendered last,
    the raw value just written and, for a buffer of sensor readings, the
    integer quotient of the sum of the buffer by 5: rounding the average to
    binary32 never moves its truncation across an integer. *)
Theorem X3_display_shows_quotient (raw : Z)
  (st : Revised.LightLocals * Revised.Shared) (l : Revised.LCDLocals) :
  let st' := snd (Revised.vTaskLight_round raw st) in
  let hist := Revised.lightHistory (fst st') in
  length hist = 5%nat -> Forall adc_reading hist ->
  lcd_ints (fst (Revised.vTaskLCD_round l (snd st')))
  = if negb (raw =? Revised.prevLight l)
       || CFloat.float_ne (Revised.average (snd st')) (Revised.prevAverage l)
    then [raw; list_sumZ hist / 5] else [].
Proof.
  destruct st as [ll g]. rewrite revised_light_round_unfold.
  cbv zeta. cbn [fst snd Revised.lightHistory Revised.average].
  intros Hlen Hadc. rewrite revised_lcd_unfold.
  cbn [Revised.light Revised.average].
  destruct (negb (raw =? Revised.prevLight l) || _); [|reflexivity].
  cbn [fst lcd_ints flat_map app].
  now rewrite truncated_average.
Qed.

Lemma X3_witness :
  let st := (Revised.light_locals [100; 200; 300; 400; 500], Revised.init) in
  lcd_ints (fst (Revised.vTaskLCD_round Revised.lcd_locals
                   (snd (snd (Revised.vTaskLight_round 1003 st)))))
  = [1003; 2403 / 5].
Proof.
  intros st.
  rewrite (X3_display_shows_quotient 1003 st Revised.lcd_locals).
  - reflexivity.
  - reflexivity.
  - repeat constructor; unfold adc_reading; lia.
Defined.

(** X4.  Update 2's display task renders a state once: a round renders
    exactly when the raw value or the average differs from the task's
    snapshot, a rendering round makes the snapshot equal to the shared
    state, and a second round on the same shared state renders nothing.  The
    exception is an average that is a NaN, which differs from itself: it
    would be rendered again on every round. *)
Theorem X4_display_renders_a_state_once (l : Revised.LCDLocals)
  (g : Revised.Shared) :
  let differs :=
    negb (Revised.light g =? Revised.prevLight l)
    || CFloat.float_ne (Revised.average g) (Revised.prevAverage l) in
  let r := Revised.vTaskLCD_round l g in
  lcd_ints (fst r)
  = (if differs then [Revised.light g; CFloat.int_of_float (Revised.average g)]
     else [])
  /\ snd r = (if differs
             then Revised.mkLCD (Revised.average g) (Revised.light g) else l)
  /\ (Revised.average g <> S754_nan ->
      lcd_ints (fst (Revised.vTaskLCD_round (snd r) g)) = [])
  /\ (Revised.average g = S754_nan ->
      lcd_ints (fst r) = [Revised.light g; CFloat.int_of_float (Revised.average g)]
      /\ lcd_ints (fst (Revised.vTaskLCD_round (snd r) g)) = lcd_ints (fst r)).
Proof.
  cbv zeta. rewrite (revised_lcd_unfold l g).
  destruct (negb (Revised.light g =? Revised.prevLight l)
            || CFloat.float_ne (Revised.average g) (Revised.prevAverage l))
    eqn:Hd; cbn [fst snd].
  - split; [reflexivity|]. split; [reflexivity|]. split.
    + intros Hnan. rewrite revised_lcd_unfold.
      cbn [Revised.prevLight Revised.prevAverage].
      now rewrite Z.eqb_refl, float_ne_self.
    + intros Hnan. split; [reflexivity|].
      rewrite revised_lcd_unfold.
      cbn [Revised.prevLight Revised.prevAverage].
      rewrite Hnan. rewrite orb_true_r. reflexivity.
  - split; [reflexivity|]. split; [reflexivity|]. split.
    + intros _. rewrite revised_lcd_unfold, Hd. reflexivity.
    + intros Hnan. rewrite Hnan in Hd.
      apply orb_false_iff in Hd as [_ Hd]. discriminate Hd.
Qed.

Lemma X4_witness :
  let g := Revised.mkShared 812 (CFloat.float_of_int 640) false in
  let r := Revised.vTaskLCD_round Revised.lcd_locals g in
  lcd_ints (fst (Revised.vTaskLCD_round (snd r) g)) = [].
Proof.
  intros g r.
  apply (X4_display_renders_a_state_once Revised.lcd_locals g).
  discriminate.
Defined.

Lemma initial_lcd_unfold (s : Initial.Shared) :
  Initial.vTaskLCD_round s
  = if Initial.dataChanged s then
      ([SemaphoreTake;
        LcdClear; LcdSetCursor 0 0; LcdPrintStr "Light: ";
        LcdPrintInt (Initial.lightLevel s);
        LcdSetCursor 0 1; LcdPrintStr "SMA: ";
        LcdPrintInt (CFloat.int_of_float (Initial.sma s));
        SemaphoreGive],
       {| Initial.lightLevel := Initial.lightLevel s;
          Initial.lightHistory := Initial.lightHistory s;
          Initial.sma := Initial.sma s;
          Initial.index := Initial.index s;
          Initial.dataChanged := false |})
    else ([SemaphoreTake; SemaphoreGive], s).
Proof. reflexivity. Qed.

(** X5.  Update 1, a producer round followed by a display round.  When the
    threshold is exceeded the display renders the raw value just read and
    the truncated new average, which for a buffer of sensor readings is the
    integer quotient of its sum by 5.  When it is not exceeded the display
    renders the new raw value with the old average if the flag was still up,
    and nothing at all if it was down: a raw value that changes while the
    average stays within 5 is not shown.  A second display round renders
    nothing. *)
Theorem X5_display_after_producer (raw : Z) (s : Initial.Shared) :
  let r := Initial.vTaskLight_critical raw s in
  let exceeded := Initial.exceeds_threshold (fst r) (Initial.sma s) in
  let shown := Initial.vTaskLCD_round (snd r) in
  lcd_ints (fst shown)
  = (if exceeded then [raw; CFloat.int_of_float (fst r)]
     else if Initial.dataChanged s
          then [raw; CFloat.int_of_float (Initial.sma s)]
          else [])
  /\ lcd_ints (fst (Initial.vTaskLCD_round (snd shown))) = []
  /\ (length (Initial.lightHistory (snd r)) = 5%nat ->
      Forall adc_reading (Initial.lightHistory (snd r)) ->
      exceeded = true ->
      lcd_ints (fst shown) = [raw; list_sumZ (Initial.lightHistory (snd r)) / 5]).
Proof.
  cbv zeta. rewrite (initial_critical_unfold raw s). cbv zeta. cbn [fst snd].
  rewrite !initial_lcd_unfold.
  cbn [Initial.dataChanged Initial.lightLevel Initial.sma Initial.lightHistory].
  destruct (Initial.exceeds_threshold _ (Initial.sma s)) eqn:He.
  - cbn [fst snd lcd_ints flat_map app Initial.dataChanged].
    split; [reflexivity|]. split; [reflexivity|].
    intros Hlen Hadc _. now rewrite truncated_average.
  - destruct (Initial.dataChanged s);
      cbn [fst snd lcd_ints flat_map app Initial.dataChanged];
      (split; [reflexivity|]); (split; [reflexivity|]); discriminate.
Qed.

Lemma X5_witness :
  let s := Initial.mkShared 10 [10; 10; 10; 10; 10] (CFloat.float_of_int 6) 0 false in
  lcd_ints (fst (Initial.vTaskLCD_round (snd (Initial.vTaskLight_critical 50 s))))
  = [50; 90 / 5].
Proof.
  intros s.
  apply (X5_display_after_producer 50 s).
  - reflexivity.
  - repeat constructor; unfold adc_reading; lia.
  - reflexivity.
Defined.

(** ** The semaphore in the rounds *)

(** X6.  Every round of the five tasks that use the semaphore, and of the
    display task of update 2, takes it once and gives it once, on every
    path through the round: started with the semaphore available the round
    runs to its end and leaves it available. *)
Theorem X6_rounds_take_and_give_once (raw : Z) (s : Initial.Shared)
  (st : Revised.LightLocals * Revised.Shared) (l : Revised.LCDLocals)
  (anomaly : bool) :
  Forall (fun tr =>
            takes tr = 1%nat /\ gives tr = 1%nat
            /\ FreeRTOS.replay (Some true) tr = FreeRTOS.Returned true (Some true))
    [ fst (Initial.vTaskLight_round raw s);
      fst (Initial.vTaskLCD_round s);
      Initial.vTaskAnomaly_round s;
      fst (Revised.vTaskLight_round raw st);
      fst (Revised.vTaskLCD_round l (snd st));
      fst (Revised.vTaskAnomaly_round anomaly (snd st)) ].
Proof.
  destruct st as [ll g].
  rewrite initial_round_unfold, initial_lcd_unfold, initial_alarm_unfold,
    revised_light_round_unfold, revised_lcd_unfold, revised_alarm_unfold.
  cbn [fst snd].
  destruct (Initial.dataChanged s), (Initial.anomalous (Initial.sma s)),
    (negb (Revised.light g =? Revised.prevLight l)
     || CFloat.float_ne (Revised.average g) (Revised.prevAverage l)),
    (Revised.anomalous (Revised.average g) || anomaly);
    repeat constructor.
Qed.

(** ** The primality test of update 2 *)

Lemma isPrime_loop_within (fuel : nat) (num i : Z) :
  2 <= i <= 46340 -> 0 <= num < 46340 * 46340 ->
  46341 - i <= Z.of_nat fuel ->
  (forall d, 1 < d < i -> ~ (d | num)) ->
  exists b, Revised.isPrime_loop fuel num i = Finished b
            /\ (b = true <-> no_divisor_between num).
Proof.
  revert i. induction fuel as [|fuel IH]; intros i Hi Hnum Hfuel Hbelow; [lia|].
  cbn [Revised.isPrime_loop].
  rewrite int_mul_small by nia.
  destruct (Z.leb_spec (i * i) num) as [Hsq | Hsq].
  - unfold CInt.int_rem.
    destruct (Z.eqb_spec i 0) as [-> | _]; [lia|].
    destruct (Z.eqb_spec (Z.rem num i) 0) as [Hrem | Hrem].
    + exists false. split; [reflexivity|].
      split; [discriminate|]. intros Hnone. exfalso.
      apply (Hnone i); [nia|].
      apply Z.rem_divide; [lia | exact Hrem].
    + rewrite int_add_small by lia.
      apply IH; try lia; try nia.
      intros d Hd Hdiv.
      destruct (Z.eq_dec d i) as [-> | Hne].
      * apply Hrem. apply Z.rem_divide; [lia | exact Hdiv].
      * apply (Hbelow d); [lia | exact Hdiv].
  - exists true. split; [reflexivity|].
    split; [|reflexivity]. intros _ d Hd [q Hq].
    destruct (Z_lt_le_dec d i) as [Hlt | Hge].
    + apply (Hbelow d); [lia|]. now exists q.
    + assert (1 < q < i) as Hqi by nia.
      apply (Hbelow q Hqi). exists d. lia.
Qed.

(** X7.  [isPrime] of update 2 decides primality for every argument from 2
    up to 46340 squared, the range in which [i * i] stays inside [int], and
    returns within 46339 passes of its loop; for every argument below 4,
    hence also for 0, 1 and the negative numbers, it returns true at the
    first test. *)
Theorem X7_isPrime_decides_primality (fuel : nat) (num : Z) :
  46339 <= Z.of_nat fuel ->
  (2 <= num < 46340 * 46340 ->
   exists b, Revised.isPrime fuel num = Finished b /\ (b = true <-> prime num))
  /\ (num < 4 -> Revised.isPrime fuel num = Finished true).
Proof.
  intros Hfuel. split.
  - intros Hnum.
    destruct (isPrime_loop_within fuel num 2) as (b & Hrun & Hb); try lia.
    exists b. split; [exact Hrun|].
    rewrite Hb, <- prime_alt. unfold Z.prime, no_divisor_between.
    intuition lia.
  - intros Hsmall. destruct fuel as [|fuel]; [lia|].
    unfold Revised.isPrime. cbn [Revised.isPrime_loop].
    change (CInt.int_mul 2 2) with 4.
    destruct (Z.leb_spec 4 num); [lia | reflexivity].
Qed.

Lemma X7_witness :
  (exists b, Revised.isPrime (Z.to_nat 46339) 2147395599 = Finished b
             /\ (b = true <-> prime 2147395599))
  /\ Revised.isPrime (Z.to_nat 46339) 1 = Finished true.
Proof.
  destruct (X7_isPrime_decides_primality (Z.to_nat 46339) 2147395599 ltac:(lia))
    as [H _].
  destruct (X7_isPrime_decides_primality (Z.to_nat 46339) 1 ltac:(lia))
    as [_ H'].
  split; [apply H | apply H']; lia.
Defined.

(** ** Successive rounds of the alarm *)

Lemma revised_alarm_run_cons (anomaly : bool) (g : Revised.Shared)
  (rest : list Revised.Shared) :
  Revised.alarm_run anomaly (g :: rest)
  = (fst (Revised.vTaskAnomaly_round anomaly g)
     ++ fst (Revised.alarm_run false rest),
     snd (Revised.alarm_run false rest)).
Proof.
  cbn [Revised.alarm_run]. rewrite revised_alarm_unfold.
  now destruct (Revised.anomalous (Revised.average g) || anomaly).
Qed.

(** X8.  Update 2's alarm over successive rounds: every round in which
    the average found is out of range blinks three times, however many such
    rounds follow each other, since the local flag is cleared at the end of
    each of them; rounds in range add nothing; and in the whole run no LED
    write or delay executes while the semaphore is held. *)
Theorem X8_alarm_retriggers_each_round (found : list Revised.Shared) :
  led_writes (fst (Revised.alarm_run false found))
  = flat_map (fun g => if Revised.anomalous (Revised.average g)
                       then [HIGH; LOW; HIGH; LOW; HIGH; LOW] else [])
      found
  /\ snd (Revised.alarm_run false found) = false
  /\ signals_while_locked (fst (Revised.alarm_run false found)) = false.
Proof.
  induction found as [|g rest (IHw & IHf & IHs)]; [repeat split|].
  rewrite revised_alarm_run_cons. cbn [fst snd].
  rewrite revised_alarm_unfold, orb_false_r.
  split; [|split; [exact IHf|]].
  - unfold led_writes in *. rewrite flat_map_app, IHw. cbn [flat_map].
    f_equal.
    destruct (Revised.anomalous (Revised.average g)); reflexivity.
  - unfold signals_while_locked in *.
    destruct (Revised.anomalous (Revised.average g));
      cbn [fst app annotate existsb snd andb orb is_signal]; exact IHs.
Qed.

(** ** The LCD driver of part I *)

Lemma wr_checked :
  all_from 256 0 (wr_received true) && all_from 256 0 (wr_received false) = true.
Proof.
  vm_compute. reflexivity.
Qed.

Lemma wr_masks_value (v : Z) (d : bool) : PartI.wr v d = PartI.wr (v mod 256) d.
Proof. unfold PartI.wr, PartI.u8. rewrite Zmod_mod. reflexivity. Qed.

Lemma wr_byte_facts (v : Z) (d : bool) :
  0 <= v < 256 ->
  PartI.receive PartI.idle (PartI.bus_bytes (PartI.wr v d)) = ([(d, v)], PartI.idle)
  /\ Forall (fun b => Z.testbit b 3 = true /\ Z.testbit b 1 = false /\ 0 <= b < 256)
       (PartI.bus_bytes (PartI.wr v d))
  /\ map (fun b => Z.testbit b 2) (PartI.bus_bytes (PartI.wr v d))
     = [true; false; true; false].
Proof.
  intros Hv.
  pose proof wr_checked as H. apply andb_true_iff in H as [Ht Hf].
  assert (wr_received d v = true) as Hok.
  { destruct d; [apply (all_from_spec _ _ _ Ht) | apply (all_from_spec _ _ _ Hf)];
      cbn; lia. }
  unfold wr_received in Hok.
  apply andb_true_iff in Hok as [Hok Hen].
  apply andb_true_iff in Hok as [Hrecv Hbits].
  split; [|split].
  - clear Hbits Hen Ht Hf. revert Hrecv.
    generalize (PartI.receive PartI.idle (PartI.bus_bytes (PartI.wr v d))).
    intros [[|[rs value] [|]] [e pend]] Hrecv; try discriminate Hrecv.
    cbn [PartI.en_was_high PartI.pending] in Hrecv.
    destruct pend; [now rewrite andb_false_r in Hrecv|].
    rewrite andb_true_r in Hrecv.
    apply andb_true_iff in Hrecv as [Hrecv He].
    apply andb_true_iff in Hrecv as [Hrs Hval].
    apply eqb_prop in Hrs. apply Z.eqb_eq in Hval.
    destruct e; [discriminate|]. now subst.
  - rewrite forallb_forall in Hbits. apply List.Forall_forall.
    intros b Hb. specialize (Hbits b Hb).
    apply andb_true_iff in Hbits as [Hbits H0].
    apply andb_true_iff in Hbits as [Hbits H256].
    apply andb_true_iff in Hbits as [H3 H1].
    apply negb_true_iff in H1. apply Z.ltb_lt in H256. apply Z.leb_le in H0.
    auto.
  - clear Hbits Hrecv Ht Hf. revert Hen.
    generalize (map (fun b => Z.testbit b 2) (PartI.bus_bytes (PartI.wr v d))).
    intros [|[|] [|[|] [|[|] [|[|] [|]]]]] Hen; try discriminate Hen.
    reflexivity.
Qed.

(** X9.  The four bytes [wr] puts on the bus carry the value in two halves,
    each strobed by EN high then low; the display that latches on the
    falling edges receives exactly the value, reduced to eight bits, with RS
    telling command from character, and is idle again afterwards.  Every
    byte keeps the backlight bit set, never sets the R/W bit and fits eight
    bits. *)
Theorem X9_wr_round_trip (v : Z) (d : bool) :
  PartI.receive PartI.idle (PartI.bus_bytes (PartI.wr v d))
  = ([(d, v mod 256)], PartI.idle)
  /\ Forall (fun b => Z.testbit b 3 = true /\ Z.testbit b 1 = false /\ 0 <= b < 256)
       (PartI.bus_bytes (PartI.wr v d))
  /\ map (fun b => Z.testbit b 2) (PartI.bus_bytes (PartI.wr v d))
     = [true; false; true; false].
Proof.
  rewrite wr_masks_value. apply wr_byte_facts.
  apply Z.mod_pos_bound. lia.
Qed.

Lemma receive_app (st : PartI.receiver) (l1 l2 : list Z) :
  PartI.receive st (l1 ++ l2)
  = (fst (PartI.receive st l1)
     ++ fst (PartI.receive (snd (PartI.receive st l1)) l2),
     snd (PartI.receive (snd (PartI.receive st l1)) l2)).
Proof.
  revert st. induction l1 as [|b l1 IH]; intros st.
  - cbn. now destruct (PartI.receive st l2).
  - cbn [app PartI.receive].
    destruct (PartI.latch st b) as [st1 out1]. rewrite IH.
    destruct (PartI.receive st1 l1) as [o1 s1]. cbn [fst snd].
    destruct (PartI.receive s1 l2) as [o2 s2]. cbn [fst snd].
    now rewrite app_assoc.
Qed.

Lemma bus_bytes_app (t1 t2 : list PartI.bus_event) :
  PartI.bus_bytes (t1 ++ t2) = PartI.bus_bytes t1 ++ PartI.bus_bytes t2.
Proof. unfold PartI.bus_bytes. apply flat_map_app. Qed.

(** A character or command sent by [wr] in front of more traffic. *)
Lemma receive_wr (v : Z) (d : bool) (rest : list Z) :
  0 <= v < 256 ->
  PartI.receive PartI.idle (PartI.bus_bytes (PartI.wr v d) ++ rest)
  = ((d, v) :: fst (PartI.receive PartI.idle rest),
     snd (PartI.receive PartI.idle rest)).
Proof.
  intros Hv. rewrite receive_app.
  destruct (wr_byte_facts v d Hv) as (-> & _ & _). reflexivity.
Qed.

Lemma receive_characters (cs : list Z) (rest : list Z) :
  Forall (fun c => 0 <= c < 256) cs ->
  PartI.receive PartI.idle
    (PartI.bus_bytes (flat_map (fun c => PartI.wr c true) cs) ++ rest)
  = (map (fun c => (true, c)) cs ++ fst (PartI.receive PartI.idle rest),
     snd (PartI.receive PartI.idle rest)).
Proof.
  induction 1 as [|c cs Hc Hcs IH].
  - cbn [flat_map app map PartI.bus_bytes]. now destruct (PartI.receive _ _).
  - cbn [flat_map map]. rewrite bus_bytes_app, <- app_assoc.
    rewrite receive_wr by exact Hc. rewrite IH. reflexivity.
Qed.

(** The printing loop sends the characters from [i] up to the end of the
    string or to [stop], whichever comes first. *)
Lemma print_loop_sends (fuel : nat) (i stop : Z) (s : list Z) :
  0 <= i -> stop - i < Z.of_nat fuel ->
  PartI.print_loop fuel i stop s
  = flat_map (fun c => PartI.wr c true)
      (take (Z.to_nat (stop - i)) (drop (Z.to_nat i) s)).
Proof.
  revert i. induction fuel as [|fuel IH]; intros i Hi Hfuel.
  { replace (Z.to_nat (stop - i)) with 0%nat by lia. reflexivity. }
  cbn [PartI.print_loop].
  destruct (Z.ltb_spec i (Z.of_nat (length s))) as [Hlen | Hlen];
    destruct (Z.ltb_spec i stop) as [Hstop | Hstop]; cbn [andb].
  - rewrite IH by lia.
    assert (s !! Z.to_nat i = Some (nth (Z.to_nat i) s 0)) as Hnth.
    { destruct (nth_lookup_or_length s (Z.to_nat i) 0) as [H | H];
        [exact H | lia]. }
    rewrite (drop_S _ _ _ Hnth).
    replace (Z.to_nat (stop - i)) with (S (Z.to_nat (stop - (i + 1)))) by lia.
    replace (Z.to_nat (i + 1)) with (S (Z.to_nat i)) by lia.
    reflexivity.
  - replace (Z.to_nat (stop - i)) with 0%nat by lia. reflexivity.
  - rewrite drop_ge by lia. now rewrite take_nil.
  - replace (Z.to_nat (stop - i)) with 0%nat by lia. reflexivity.
Qed.

Lemma char_codes_bytes (text : string) :
  Forall (fun c => 0 <= c < 256) (PartI.char_codes text).
Proof.
  unfold PartI.char_codes. apply List.Forall_forall. intros c Hc.
  apply in_map_iff in Hc as (a & <- & _).
  pose proof (Ascii.N_ascii_bounded a). lia.
Qed.

Lemma lcdPrint_receive (text : string) :
  let s := PartI.char_codes text in
  PartI.receive PartI.idle (PartI.bus_bytes (PartI.lcdPrint text))
  = ((false, 1) :: (false, 128) :: map (fun c => (true, c)) (take 16 s)
     ++ (if 16 <? Z.of_nat (length s)
         then (false, 192) :: map (fun c => (true, c)) (take 16 (drop 16 s))
         else []),
     PartI.idle).
Proof.
  intros s.
  assert (Forall (fun c => 0 <= c < 256) s) as Hs by apply char_codes_bytes.
  unfold PartI.lcdPrint. fold s.
  rewrite !print_loop_sends by (cbn; lia).
  change (Z.to_nat (16 - 0)) with 16%nat.
  change (Z.to_nat (32 - 16)) with 16%nat.
  change (Z.to_nat 0) with 0%nat. change (Z.to_nat 16) with 16%nat.
  rewrite drop_0, !bus_bytes_app.
  change (PartI.bus_bytes [PartI.DelayMs 5]) with (@nil Z).
  rewrite app_nil_l.
  rewrite receive_wr by lia. rewrite receive_wr by lia.
  rewrite receive_characters by now apply Forall_take.
  destruct (16 <? Z.of_nat (length s)).
  - rewrite bus_bytes_app, receive_wr by lia.
    rewrite <- (app_nil_r (PartI.bus_bytes (flat_map _ (take 16 (drop 16 s))))).
    rewrite receive_characters by now apply Forall_take, Forall_drop.
    cbn [PartI.receive fst snd]. now rewrite app_nil_r.
  - reflexivity.
Qed.

(** X10.  [lcdPrint] clears the display, moves to the start of the first
    line and sends the first 16 characters of the text; when the text is
    longer than 16 it moves to the start of the second line and sends
    characters 16 to 31; anything from the 33rd character on is not sent.
    The display receives these commands and characters and nothing else, and
    is idle afterwards. *)
Theorem X10_lcdPrint_received (text : string) :
  let s := PartI.char_codes text in
  PartI.receive PartI.idle (PartI.bus_bytes (PartI.lcdPrint text))
  = ((false, 1) :: (false, 128) :: map (fun c => (true, c)) (take 16 s)
     ++ (if 16 <? Z.of_nat (length s)
         then (false, 192) :: map (fun c => (true, c)) (take 16 (drop 16 s))
         else []),
     PartI.idle)
  /\ length (List.filter fst
               (fst (PartI.receive PartI.idle (PartI.bus_bytes (PartI.lcdPrint text)))))
     = Nat.min (length s) 32.
Proof.
  intros s.
  pose proof (lcdPrint_receive text) as Hrecv. cbv zeta in Hrecv. fold s in Hrecv.
  split; [exact Hrecv|].
  rewrite Hrecv. cbn [fst List.filter].
  rewrite List.filter_app.
  assert (forall l : list Z,
            List.filter fst (map (fun c => (true, c)) l) = map (fun c => (true, c)) l)
    as Hall.
  { induction l as [|c l IH]; cbn; [reflexivity | now rewrite IH]. }
  rewrite Hall, length_app, length_map, length_take.
  destruct (Z.ltb_spec 16 (Z.of_nat (length s))).
  - cbn [List.filter fst]. rewrite Hall, length_map, length_take, length_drop.
    clearbody s. lia.
  - cbn [List.filter length]. clearbody s. lia.
Qed.

(** ** The periodic tasks of part I over whole schedules *)

Lemma mod_succ (k m : Z) :
  0 <= k -> 0 < m ->
  (k + 1) mod m = if k mod m =? m - 1 then 0 else k mod m + 1.
Proof.
  intros Hk Hm.
  pose proof (Z.mod_pos_bound k m Hm) as Hj.
  pose proof (Z.div_mod k m ltac:(lia)) as Hdiv.
  destruct (Z.eqb_spec (k mod m) (m - 1)) as [He | Hne]; symmetry.
  - apply Z.mod_unique with (q := k / m + 1); lia.
  - apply Z.mod_unique with (q := k / m); lia.
Qed.

Lemma rounds_of_nonneg (t : PartI.task) (sched : list PartI.task) :
  0 <= PartI.rounds_of t sched.
Proof.
  induction sched as [|u sched IH]; cbn [PartI.rounds_of]; [lia|].
  destruct (PartI.is_task t u); lia.
Qed.

Lemma run_schedule_cons (p : Z) (t : PartI.task) (sched : list PartI.task)
  (st : bool * PartI.Globals) :
  PartI.run_schedule p (t :: sched) st
  = PartI.run_schedule p sched (PartI.step p t st).
Proof. reflexivity. Qed.

Lemma counter_and_letter_follow (p : Z) (sched : list PartI.task) :
  forall (st : bool * PartI.Globals) (kc ka : Z) (led : bool),
    0 <= kc -> 0 <= ka ->
    PartI.currentCount (snd st) = 1 + kc mod 20 ->
    PartI.currentChar (snd st) = 65 + ka mod 26 ->
    fst st = led ->
    let st' := PartI.run_schedule p sched st in
    PartI.currentCount (snd st')
    = 1 + (kc + PartI.rounds_of PartI.CounterTask sched) mod 20
    /\ PartI.currentChar (snd st')
       = 65 + (ka + PartI.rounds_of PartI.AlphabetTask sched) mod 26
    /\ fst st' = xorb led (Z.odd (PartI.rounds_of PartI.LedTask sched)).
Proof.
  induction sched as [|t sched IH]; intros [b g] kc ka led Hkc Hka Hc Ha Hl.
  - cbn in *. rewrite !Z.add_0_r. subst. now rewrite xorb_false_r.
  - cbn [fst snd] in Hc, Ha, Hl. rewrite run_schedule_cons.
    pose proof (rounds_of_nonneg PartI.CounterTask sched).
    pose proof (rounds_of_nonneg PartI.AlphabetTask sched).
    pose proof (rounds_of_nonneg PartI.LedTask sched).
    pose proof (Z.mod_pos_bound kc 20 ltac:(lia)).
    pose proof (Z.mod_pos_bound ka 26 ltac:(lia)).
    destruct t; cbn [PartI.rounds_of PartI.is_task].
    + specialize (IH (PartI.step p PartI.LedTask (b, g)) kc ka (negb led)
                    Hkc Hka Hc Ha).
      cbv zeta in IH. destruct IH as (-> & -> & ->); [now subst|].
      rewrite !Z.add_0_l.
      replace (1 + PartI.rounds_of PartI.LedTask sched)
        with (Z.succ (PartI.rounds_of PartI.LedTask sched)) by lia.
      rewrite Z.odd_succ, <- Z.negb_odd.
      repeat split. now destruct led, (Z.odd _).
    + specialize (IH (PartI.step p PartI.CounterTask (b, g)) (kc + 1) ka led
                    ltac:(lia) Hka).
      cbv zeta in IH. destruct IH as (-> & -> & ->); try assumption.
      * cbn [PartI.step PartI.counterTask_round snd fst PartI.currentCount].
        rewrite Hc, (counter_update_spec p), (mod_succ kc 20) by lia.
        destruct (Z.eqb_spec (1 + kc mod 20) 20), (Z.eqb_spec (kc mod 20) (20 - 1));
          lia.
      * rewrite !Z.add_0_l. repeat split. f_equal. f_equal. lia.
    + specialize (IH (PartI.step p PartI.AlphabetTask (b, g)) kc (ka + 1) led
                    Hkc ltac:(lia) Hc).
      cbv zeta in IH. destruct IH as (-> & -> & ->); try assumption.
      * cbn [PartI.step PartI.alphabetTask_round snd fst PartI.currentChar].
        rewrite Ha, (mod_succ ka 26) by lia.
        rewrite (Z.mod_small (65 + ka mod 26 + 1) 256) by lia.
        destruct (Z.ltb_spec 90 (65 + ka mod 26 + 1)),
          (Z.eqb_spec (ka mod 26) (26 - 1)); lia.
      * rewrite !Z.add_0_l. repeat split. f_equal. f_equal. lia.
    + specialize (IH (PartI.step p PartI.SchedulerTask (b, g)) kc ka led
                    Hkc Hka Hc Ha Hl).
      cbv zeta in IH. destruct IH as (-> & -> & ->).
      now rewrite !Z.add_0_l.
Qed.

(** X11.  Whatever the interleaving of the four tasks, the counter shown
    next depends only on the number n of counter rounds so far and is
    1 + n mod 20, and the letter printed next depends only on the number m
    of alphabet rounds so far and is the (m mod 26)-th capital letter: the
    two cycle with periods 20 and 26 and stay in 1..20 and 'A'..'Z'. *)
Theorem X11_counter_and_letter_cycle (portTICK_PERIOD_MS : Z)
  (sched : list PartI.task) (b : bool) :
  let g := snd (PartI.run_schedule portTICK_PERIOD_MS sched
                  (b, PartI.init portTICK_PERIOD_MS)) in
  PartI.currentCount g = 1 + PartI.rounds_of PartI.CounterTask sched mod 20
  /\ PartI.currentChar g = 65 + PartI.rounds_of PartI.AlphabetTask sched mod 26
  /\ 65 <= PartI.currentChar g <= 90
  /\ fst (PartI.alphabetTask_round portTICK_PERIOD_MS g)
     = [SerialPrint "[Alphabet Task] Char: ";
        SerialPrintlnChar (65 + PartI.rounds_of PartI.AlphabetTask sched mod 26);
        TaskDelay (CInt.tick_add (PartI.timeSlice portTICK_PERIOD_MS) 300)].
Proof.
  cbv zeta.
  destruct (counter_and_letter_follow portTICK_PERIOD_MS sched
              (b, PartI.init portTICK_PERIOD_MS) 0 0 b)
    as (Hc & Ha & _); try reflexivity; try lia.
  rewrite !Z.add_0_l in *.
  pose proof (Z.mod_pos_bound (PartI.rounds_of PartI.AlphabetTask sched) 26
                ltac:(lia)).
  split; [exact Hc|]. split; [exact Ha|]. split; [lia|].
  cbn [PartI.alphabetTask_round fst]. now rewrite Ha.
Qed.

(** X12.  The LED task writes HIGH and LOW in turn, starting with HIGH: a
    round writes the opposite of the flag it finds, and after any
    interleaving the flag is up exactly when the LED task has run an odd
    number of rounds since the flag was down. *)
Theorem X12_led_alternates (portTICK_PERIOD_MS : Z) (sched : list PartI.task)
  (state : bool) (g : PartI.Globals) :
  led_writes (fst (PartI.ledTask_round portTICK_PERIOD_MS state g))
  = [if state then LOW else HIGH]
  /\ fst (snd (PartI.ledTask_round portTICK_PERIOD_MS state g)) = negb state
  /\ fst (PartI.run_schedule portTICK_PERIOD_MS sched
            (false, PartI.init portTICK_PERIOD_MS))
     = Z.odd (PartI.rounds_of PartI.LedTask sched).
Proof.
  split; [now destruct state|]. split; [reflexivity|].
  destruct (counter_and_letter_follow portTICK_PERIOD_MS sched
              (false, PartI.init portTICK_PERIOD_MS) 0 0 false)
    as (_ & _ & Hl); try reflexivity; try lia.
  exact Hl.
Qed.

(** ** The budgets of part I over whole schedules *)

(** A round of a task updates the budget the task owns and leaves the
    other budgets alone. *)
Lemma budget_step (p : Z) (t u : PartI.task) (st : bool * PartI.Globals) :
  PartI.remaining_of t (snd (PartI.step p u st))
  = if PartI.is_task t u
    then PartI.reload (PartI.period_of p t)
           (PartI.countdown p (PartI.remaining_of t (snd st)))
    else PartI.remaining_of t (snd st).
Proof. destruct st as [b g]. destruct t, u; reflexivity. Qed.

(** The number of rounds after which a budget is reloaded: the period over
    the time slice, rounded up. *)
Lemma reload_round (P T j : Z) :
  0 < P -> 0 < T -> 0 <= j < (P + T - 1) / T ->
  0 < P - j * T <= P
  /\ (P - j * T <=? T) = (j =? (P + T - 1) / T - 1).
Proof.
  intros HP HT Hj.
  pose proof (Z.div_mod (P + T - 1) T ltac:(lia)) as Hdiv.
  pose proof (Z.mod_pos_bound (P + T - 1) T HT) as Hmod.
  set (m := (P + T - 1) / T) in *.
  assert (j * T <= (m - 1) * T) as Hle by (apply Z.mul_le_mono_nonneg_r; lia).
  split; [nia|].
  destruct (Z.eqb_spec j (m - 1)) as [-> | Hne].
  - apply Z.leb_le. nia.
  - apply Z.leb_gt.
    assert ((j + 1) * T <= (m - 1) * T)
      by (apply Z.mul_le_mono_nonneg_r; lia).
    nia.
Qed.

Lemma budget_follows (p : Z) (t : PartI.task) (sched : list PartI.task) :
  0 < p -> 0 < PartI.timeSlice p -> 0 < PartI.period_of p t ->
  forall (st : bool * PartI.Globals) (k : Z),
    0 <= k ->
    PartI.remaining_of t (snd st)
    = PartI.period_of p t
      - (k mod ((PartI.period_of p t + PartI.timeSlice p - 1) / PartI.timeSlice p))
        * PartI.timeSlice p ->
    PartI.remaining_of t (snd (PartI.run_schedule p sched st))
    = PartI.period_of p t
      - ((k + PartI.rounds_of t sched)
           mod ((PartI.period_of p t + PartI.timeSlice p - 1) / PartI.timeSlice p))
        * PartI.timeSlice p.
Proof.
  intros Hp HT HP.
  pose proof (periods_range p Hp t) as Hrange.
  set (P := PartI.period_of p t) in *.
  set (T := PartI.timeSlice p) in *.
  set (m := (P + T - 1) / T).
  assert (0 < m) as Hm.
  { unfold m. apply Z.div_str_pos. lia. }
  induction sched as [|u sched IH]; intros st k Hk Hrem.
  - cbn [PartI.rounds_of PartI.run_schedule fold_left]. now rewrite Z.add_0_r.
  - rewrite run_schedule_cons. cbn [PartI.rounds_of].
    pose proof (rounds_of_nonneg t sched) as Hr.
    pose proof (Z.mod_pos_bound k m Hm) as Hj.
    destruct (PartI.is_task t u) eqn:E.
    + replace (k + (1 + PartI.rounds_of t sched))
        with ((k + 1) + PartI.rounds_of t sched) by lia.
      apply IH; [lia|].
      rewrite budget_step, E. fold P.
      destruct (reload_round P T (k mod m) HP HT Hj) as (Hpos & Hlast).
      fold m in Hlast.
      destruct (budget_update_spec p Hp P (PartI.remaining_of t (snd st)))
        as (_ & -> & _); [lia | lia |].
      fold T. rewrite Hrem, Hlast, mod_succ by lia.
      destruct (k mod m =? m - 1); lia.
    + replace (k + (0 + PartI.rounds_of t sched))
        with (k + PartI.rounds_of t sched) by lia.
      apply IH; [lia|].
      rewrite budget_step, E. exact Hrem.
Qed.

(** X15.  Each remaining-time counter of part I is a function of the
    number of rounds its own task has run, whatever the other tasks did in
    between: with period P and time slice T ticks, both positive, it is
    P - (n mod m) * T after n rounds, where m is P / T rounded up.  It comes
    back to the full period every m rounds and is never 0 between rounds. *)
Theorem X15_budget_cycle (portTICK_PERIOD_MS : Z) (t : PartI.task)
  (sched : list PartI.task) (b : bool) :
  0 < portTICK_PERIOD_MS ->
  0 < PartI.timeSlice portTICK_PERIOD_MS ->
  0 < PartI.period_of portTICK_PERIOD_MS t ->
  let P := PartI.period_of portTICK_PERIOD_MS t in
  let T := PartI.timeSlice portTICK_PERIOD_MS in
  let m := (P + T - 1) / T in
  let n := PartI.rounds_of t sched in
  let remaining :=
    PartI.remaining_of t
      (snd (PartI.run_schedule portTICK_PERIOD_MS sched
              (b, PartI.init portTICK_PERIOD_MS))) in
  remaining = P - (n mod m) * T
  /\ 0 < remaining <= P
  /\ (n mod m = 0 -> remaining = P).
Proof.
  intros Hp HT HP P T m n remaining.
  assert (remaining = P - (n mod m) * T) as Hrem.
  { unfold remaining, n.
    rewrite (budget_follows portTICK_PERIOD_MS t sched Hp HT HP
               (b, PartI.init portTICK_PERIOD_MS) 0 ltac:(lia)).
    - now rewrite Z.add_0_l.
    - rewrite Z.mod_0_l.
      + destruct t; cbn; lia.
      + assert (0 < (P + T - 1) / T) by (apply Z.div_str_pos; lia).
        fold P T. lia. }
  split; [exact Hrem|].
  assert (0 < m) as Hm by (apply Z.div_str_pos; lia).
  pose proof (Z.mod_pos_bound n m Hm) as Hj.
  destruct (reload_round P T (n mod m) HP HT Hj) as (Hpos & _).
  split; [lia|]. intros Hz. rewrite Hrem, Hz. lia.
Qed.

Lemma X15_witness :
  PartI.remaining_of PartI.CounterTask
    (snd (PartI.run_schedule 1
            [PartI.CounterTask; PartI.LedTask; PartI.CounterTask;
             PartI.SchedulerTask; PartI.CounterTask]
            (false, PartI.init 1)))
  = 2000 - (3 mod ((2000 + 1000 - 1) / 1000)) * 1000.
Proof.
  apply (X15_budget_cycle 1 PartI.CounterTask
           [PartI.CounterTask; PartI.LedTask; PartI.CounterTask;
            PartI.SchedulerTask; PartI.CounterTask] false).
  - lia.
  - reflexivity.
  - reflexivity.
Defined.

Lemma led_budget_kept (p : Z) (sched : list PartI.task) :
  0 < p ->
  forall st : bool * PartI.Globals,
    PartI.remainingLedTime (snd st) = PartI.ledTaskExecutionTime p ->
    PartI.remainingLedTime (snd (PartI.run_schedule p sched st))
    = PartI.ledTaskExecutionTime p.
Proof.
  intros Hp.
  pose proof (periods_range p Hp PartI.LedTask) as Hrange.
  cbn [PartI.period_of] in Hrange.
  assert (PartI.ledTaskExecutionTime p <= PartI.timeSlice p) as Hle.
  { unfold PartI.ledTaskExecutionTime, PartI.timeSlice, CInt.tick_div.
    apply Z.div_le_mono; lia. }
  induction sched as [|u sched IH]; intros st Hst; [exact Hst|].
  rewrite run_schedule_cons. apply IH.
  change (PartI.remainingLedTime (snd (PartI.step p u st)))
    with (PartI.remaining_of PartI.LedTask (snd (PartI.step p u st))).
  rewrite budget_step. cbn [PartI.remaining_of PartI.period_of].
  destruct (PartI.is_task PartI.LedTask u); [|exact Hst].
  destruct (budget_update_spec p Hp (PartI.ledTaskExecutionTime p)
              (PartI.remainingLedTime (snd st)))
    as (_ & -> & _); [lia | lia |].
  rewrite Hst.
  destruct (Z.leb_spec (PartI.ledTaskExecutionTime p) (PartI.timeSlice p)); lia.
Qed.

(** X16.  The period of the LED task, 500 ms, is not longer than the time
    slice of 1000 ms: the LED budget is used up and reloaded in every round
    of the task, so between rounds it always shows the full period, and the
    minimum the scheduler computes is never above it. *)
Theorem X16_led_budget_constant (portTICK_PERIOD_MS : Z)
  (sched : list PartI.task) (b : bool) :
  0 < portTICK_PERIOD_MS ->
  let g := snd (PartI.run_schedule portTICK_PERIOD_MS sched
                  (b, PartI.init portTICK_PERIOD_MS)) in
  PartI.remainingLedTime g = PartI.ledTaskExecutionTime portTICK_PERIOD_MS
  /\ snd (fst (PartI.scheduleTasks_round g))
     <= PartI.ledTaskExecutionTime portTICK_PERIOD_MS.
Proof.
  intros Hp g.
  assert (PartI.remainingLedTime g = PartI.ledTaskExecutionTime portTICK_PERIOD_MS)
    as Hled by (apply led_budget_kept; [exact Hp | reflexivity]).
  split; [exact Hled|].
  unfold PartI.scheduleTasks_round. cbn [fst snd]. rewrite Hled.
  destruct (Z.ltb_spec (PartI.remainingCounterTime g)
              (PartI.ledTaskExecutionTime portTICK_PERIOD_MS)) as [H1 | H1];
    match goal with
    | |- (if ?a <? ?b then _ else _) <= _ => destruct (Z.ltb_spec a b)
    end; lia.
Qed.

Lemma X16_witness :
  PartI.remainingLedTime
    (snd (PartI.run_schedule 1
            [PartI.LedTask; PartI.CounterTask; PartI.LedTask]
            (false, PartI.init 1)))
  = PartI.ledTaskExecutionTime 1.
Proof.
  apply (X16_led_budget_constant 1
           [PartI.LedTask; PartI.CounterTask; PartI.LedTask] false).
  lia.
Defined.

(** ** The counter on the display *)


